(** * buddy: session hub, connection pumps and the open-streams registry

    A shallow embedding of [streams.go] (the [OpenStreamsList] registry and
    the [Server] hub with [Run] and [broadcastAll]) and of [client.go]
    ([Client], [writePump], [serveWs]).

    Go channels are records with a FIFO buffer, a capacity and a closed
    flag; goroutine hazards (a close of a closed channel, a send on a
    closed channel, a nil dereference) are results of their own, as is a
    channel operation that cannot proceed.  Pointers to clients are keys of
    a heap, so that the hub and the sessions alias the same client. *)

From Stdlib Require Import ZArith Lia Strings.Byte.
From stdpp Require Import base option list gmap strings.

Open Scope Z_scope.

(** ** Machine integers: Go's [int] on a 64-bit target *)

Definition int_wrap (z : Z) : Z := (z + 2 ^ 63) mod 2 ^ 64 - 2 ^ 63.
Definition int_add (a b : Z) : Z := int_wrap (a + b).
Definition int_sub (a b : Z) : Z := int_wrap (a - b).

Abbreviation SessionToken := string (only parsing).

(** ** streams.go: OpenStreamsList *)

Module OpenStreamsList.
Section Registry.
(* The controller type is declared elsewhere in the package; the registry
   only stores pointers to it. *)
Variable AppController : Type.

Record t := mk {
  streams : gmap string AppController;
  length : Z
}.

Definition NewOpenStreamsList : t := {| streams := ∅; length := 0 |}.

Definition Exists (token : SessionToken) (osl : t) : bool :=
  match streams osl !! token with
  | Some _ => true
  | None => false
  end.

(* A missing token yields the nil pointer. *)
Definition Get (token : SessionToken) (osl : t) : option AppController :=
  streams osl !! token.

Definition Add (token : SessionToken) (ac : AppController) (osl : t) : t :=
  {| streams := <[token := ac]> (streams osl);
     length := int_add (length osl) 1 |}.

Definition Delete (token : SessionToken) (osl : t) : t :=
  {| streams := delete token (streams osl);
     length := int_sub (length osl) 1 |}.

Definition IsEmpty (osl : t) : bool := length osl =? 0.

End Registry.
Arguments streams {AppController} _.
Arguments length {AppController} _.
Arguments NewOpenStreamsList {AppController}.
Arguments Exists {AppController} token osl.
Arguments Get {AppController} token osl.
Arguments Add {AppController} token ac osl.
Arguments Delete {AppController} token osl.
Arguments IsEmpty {AppController} osl.
End OpenStreamsList.

(** ** Outcomes of a goroutine step *)

Inductive Fault :=
  | NilDereference
  | CloseOfClosedChannel
  | SendOnClosedChannel.

(** [Ok a]: the step ran to its end; [Panic f]: the Go runtime panicked;
    [Block]: a channel operation of the step cannot proceed. *)
Inductive result (A : Type) :=
  | Ok (a : A)
  | Panic (f : Fault)
  | Block.
Arguments Ok {A} a.
Arguments Panic {A} f.
Arguments Block {A}.

#[global] Instance result_ret : MRet result := fun A a => Ok a.
#[global] Instance result_bind : MBind result := fun A B k m =>
  match m with
  | Ok a => k a
  | Panic f => Panic f
  | Block => Block
  end.

#[global] Instance result_fmap : FMap result := fun A B f m =>
  match m with
  | Ok a => Ok (f a)
  | Panic e => Panic e
  | Block => Block
  end.

Definition to_option {A} (r : result A) : option A :=
  match r with
  | Ok a => Some a
  | _ => None
  end.

(** ** Channels *)

Record chan (A : Type) := Chan {
  buf : list A;
  cap : nat;
  closed : bool
}.
Arguments Chan {A} buf cap closed.
Arguments buf {A} c.
Arguments cap {A} c.
Arguments closed {A} c.

(* make(chan A, n) *)
Definition make {A} (n : nat) : chan A := Chan [] n false.

(* len(ch) *)
Definition len {A} (ch : chan A) : nat := List.length (buf ch).

(* ch <- v *)
Definition chan_send {A} (v : A) (ch : chan A) : result (chan A) :=
  if closed ch then Panic SendOnClosedChannel
  else if (len ch <? cap ch)%nat then Ok (Chan (buf ch ++ [v]) (cap ch) false)
  else Block.

(* select { case ch <- v: ... default: ... }: [None] is the default case. *)
Definition chan_try_send {A} (v : A) (ch : chan A) : result (option (chan A)) :=
  if closed ch then Panic SendOnClosedChannel
  else if (len ch <? cap ch)%nat then Ok (Some (Chan (buf ch ++ [v]) (cap ch) false))
  else Ok None.

(* v, ok := <-ch; a closed and drained channel yields the zero value. *)
Definition chan_recv {A} (zero : A) (ch : chan A) : result (A * bool * chan A) :=
  match buf ch with
  | v :: rest => Ok (v, true, Chan rest (cap ch) (closed ch))
  | [] => if closed ch then Ok (zero, false, ch) else Block
  end.

(* close(ch) *)
Definition chan_close {A} (ch : chan A) : result (chan A) :=
  if closed ch then Panic CloseOfClosedChannel
  else Ok (Chan (buf ch) (cap ch) true).

(** ** client.go: constants, the transport and the client *)

Definition sendMsgBufferSize : nat := 1024.
Definition sendTokenBufferSize : nat := 1.
Definition clientSecretRequired : bool := false.
Definition serverSecret : string := "37FUqWlvJhRgwPMM1mlHOGyPNwkVna3b".

Definition newline : list byte := [x0a].

(** What the websocket connection has put on the wire, oldest first. *)
Inductive Frame :=
  | TextMessage (data : list byte)
  | CloseMessage
  | PingMessage.

Record Conn := mkConn {
  written : list Frame;
  connClosed : bool
}.

Abbreviation ClientPtr := nat (only parsing).

Record Client := mkClient {
  session : option SessionToken;
  start : chan unit;
  open : bool;
  conn : Conn;
  send : chan (list byte);
  sendToken : chan SessionToken
}.

Definition set_session (v : option SessionToken) (c : Client) : Client :=
  mkClient v (start c) (open c) (conn c) (send c) (sendToken c).
Definition set_start (v : chan unit) (c : Client) : Client :=
  mkClient (session c) v (open c) (conn c) (send c) (sendToken c).
Definition set_open (v : bool) (c : Client) : Client :=
  mkClient (session c) (start c) v (conn c) (send c) (sendToken c).
Definition set_conn (v : Conn) (c : Client) : Client :=
  mkClient (session c) (start c) (open c) v (send c) (sendToken c).
Definition set_send (v : chan (list byte)) (c : Client) : Client :=
  mkClient (session c) (start c) (open c) (conn c) v (sendToken c).
Definition set_sendToken (v : chan SessionToken) (c : Client) : Client :=
  mkClient (session c) (start c) (open c) (conn c) (send c) v.

(* func (c *Client) Full() bool *)
Definition Full (c : Client) : bool := (len (send c) =? sendMsgBufferSize)%nat.

(* func validClientSecret(clientSecret string) bool *)
Definition validClientSecret (clientSecret : string) : bool :=
  if String.eqb clientSecret serverSecret then true else false.

(** *** writePump

    One turn of the loop is driven by the case the [select] picked and by
    what the transport answered.  Go picks among the ready cases at random,
    so the picked case is an input of the model; a case that is not ready
    gives [Block]. *)

Inductive PumpEvent :=
  | OnSend (nextWriterErr closeErr : bool)
  | OnToken (nextWriterErr closeErr : bool)
  | OnTick (writeErr : bool).

Inductive PumpStatus := Running | Returned.

(* defer func() { ticker.Stop(); c.conn.Close() }() *)
Definition pump_exit (c : Client) : Client :=
  set_conn (mkConn (written (conn c)) true) c.

Definition conn_write (f : Frame) (c : Client) : Client :=
  set_conn (mkConn (written (conn c) ++ [f]) (connClosed (conn c))) c.

(* for i := 0; i < n; i++ { w.Write(newline); w.Write(<-ch) } *)
Fixpoint drain {A} (zero : A) (bytes_of : A -> list byte) (n : nat)
    (ch : chan A) (w : list byte) : result (chan A * list byte) :=
  match n with
  | O => Ok (ch, w)
  | S n' =>
      '(v, _, ch') ← chan_recv zero ch;
      drain zero bytes_of n' ch' (w ++ newline ++ bytes_of v)
  end.

Definition writePump_iter (ev : PumpEvent) (c : Client)
    : result (PumpStatus * Client) :=
  match ev with
  | OnSend nextWriterErr closeErr =>
      '(message, ok, ch) ← chan_recv [] (send c);
      let c := set_send ch c in
      if negb ok then Ok (Returned, pump_exit c)
      else if nextWriterErr then Ok (Returned, pump_exit c)
      else
        '(ch', w) ← drain [] id (len ch) ch message;
        let c := set_send ch' c in
        if closeErr then Ok (Returned, pump_exit c)
        else Ok (Running, conn_write (TextMessage w) c)
  | OnToken nextWriterErr closeErr =>
      '(token, ok, ch) ← chan_recv EmptyString (sendToken c);
      let c := set_sendToken ch c in
      if negb ok then Ok (Returned, pump_exit (conn_write CloseMessage c))
      else if nextWriterErr then Ok (Returned, pump_exit c)
      else
        '(ch', w) ← drain EmptyString String.list_byte_of_string (len ch) ch
                      (String.list_byte_of_string token);
        let c := set_sendToken ch' c in
        if closeErr then Ok (Returned, pump_exit c)
        else Ok (Running, conn_write (TextMessage w) c)
  | OnTick writeErr =>
      if writeErr then Ok (Returned, pump_exit c)
      else Ok (Running, conn_write PingMessage c)
  end.

(* for { select { ... } }, along the cases picked in [evs]. *)
Fixpoint writePump (evs : list PumpEvent) (c : Client)
    : result (PumpStatus * Client) :=
  match evs with
  | [] => Ok (Running, c)
  | ev :: evs' =>
      '(status, c') ← writePump_iter ev c;
      match status with
      | Returned => Ok (Returned, c')
      | Running => writePump evs' c'
      end
  end.

(** ** Sessions and the session store

    The session type and the store ([Exists], [NewSession], [SetClient],
    [Delete], [Range]) are declared in a file of the package that is not
    part of the sources at hand; the hub uses the fields [Token],
    [expireTime] and [Client]. *)

(* [Client_] is the field [Client] of the source, a pointer that may be
   nil; the plain name is taken by the client type. *)
Record Session := mkSession {
  Token : SessionToken;
  expireTime : Z;
  Client_ : option ClientPtr
}.

(** The hub's world: the store it owns, and the heap of clients that the
    sessions and the register and unregister requests point into. *)
Record State := mkState {
  sessions : gmap string Session;
  clients : gmap nat Client
}.

Definition set_sessions (m : gmap string Session) (st : State) : State :=
  mkState m (clients st).
Definition set_client (p : ClientPtr) (c : Client) (st : State) : State :=
  mkState (sessions st) (<[p := c]> (clients st)).

Definition deref (p : ClientPtr) (st : State) : result Client :=
  match clients st !! p with
  | Some c => Ok c
  | None => Panic NilDereference
  end.

Module SessionStore.
Section Store.
Variable sessionDuration : Z.

(** Modelled from the spec: [refreshExpiryTime], the sliding deadline of a
    session, one time-to-live after the instant it is taken at. *)
Definition refreshExpiryTime (now : Z) : Z := now + sessionDuration.

(** Modelled from the spec: [Session.SessionExpired], "the session's
    sliding TTL has lapsed": the deadline lies before the present. *)
Definition SessionExpired (now : Z) (s : Session) : bool := expireTime s <? now.

(** Modelled from the spec: [Exists(token) -> bool]. *)
Definition Exists (token : SessionToken) (m : gmap string Session) : bool :=
  bool_decide (is_Some (m !! token)).

(** The first candidate that the store does not hold yet. *)
Fixpoint freshToken (candidates : list SessionToken) (m : gmap string Session)
    : option SessionToken :=
  match candidates with
  | [] => None
  | t :: rest => if Exists t m then freshToken rest m else Some t
  end.

(** Modelled from the spec: [NewSession() -> (token, error)], which "mints
    a fresh unique token and initial expiry; fails only if unique-token
    generation exhausts retries".  The draws of the token generator are the
    list [candidates], one per try; on failure the token is the zero
    value.  The boolean is [err != nil]. *)
Definition NewSession (now : Z) (candidates : list SessionToken)
    (m : gmap string Session) : SessionToken * bool * gmap string Session :=
  match freshToken candidates m with
  | Some t => (t, false, <[t := mkSession t (refreshExpiryTime now) None]> m)
  | None => (EmptyString, true, m)
  end.

(** Modelled from the spec: [Bind(token, connection)], which "associates a
    Connection with an existing or new session"; the pumps are "started
    only after the Hub completes registration", which is the signal on the
    client's [start] channel.  Binding to a token the store does not hold
    binds nothing. *)
Definition SetClient (token : SessionToken) (p : ClientPtr) (st : State)
    : result State :=
  match sessions st !! token with
  | None => Ok st
  | Some s =>
      c ← deref p st;
      let c := set_start (Chan (buf (start c)) (cap (start c)) true)
                 (set_session (Some token) c) in
      Ok (set_client p c
            (set_sessions
               (<[token := mkSession (Token s) (expireTime s) (Some p)]>
                  (sessions st)) st))
  end.

(** Modelled from the spec: [Delete(token)], which "removes a session;
    idempotent". *)
Definition Delete (token : SessionToken) (m : gmap string Session)
    : gmap string Session := delete token m.

(** Modelled from the spec: [Range(visitor)], which "iterates a snapshot or
    safely-locked view of all sessions, invoking
    visitor(session) -> continue:bool".  The order of the sweep is
    unspecified, so it is the list [order] of the keys of the snapshot; an
    entry removed since the snapshot is passed over; the iteration ends
    with the first visit that answers false.  The visitor is a closure over
    the hub and its counters, which [A] stands for. *)
Fixpoint Range {A} (store_of : A -> gmap string Session)
    (visitor : SessionToken -> Session -> A -> result (bool * A))
    (order : list SessionToken) (acc : A) : result A :=
  match order with
  | [] => Ok acc
  | key :: rest =>
      match store_of acc !! key with
      | None => Range store_of visitor rest acc
      | Some value =>
          '(continue, acc') ← visitor key value acc;
          if continue : bool then Range store_of visitor rest acc' else Ok acc'
      end
  end.

End Store.
End SessionStore.

(** ** streams.go: the server hub *)

Definition broadcastChannelSize : nat := 512.

(* The four tallies that broadcastAll logs after a sweep. *)
Record Counters := mkCounters {
  expiredSessionCount : Z;
  closedClientCount : Z;
  refreshedClientCount : Z;
  messagesSent : Z
}.

Section Hub.
Variable sessionDuration : Z.

(* case client := <-svr.register *)
Definition register (now : Z) (candidates : list SessionToken)
    (client : ClientPtr) (st : State) : result State :=
  c ← deref client st;
  let c := set_open true c in
  '(token, _, tq) ← chan_recv EmptyString (sendToken c);
  let c := set_sendToken tq c in
  let exists_ := SessionStore.Exists token (sessions st) in
  if String.eqb token "nil" || negb exists_ then
    let '(token', _, m) :=
      SessionStore.NewSession sessionDuration now candidates (sessions st) in
    tq' ← chan_send token' (sendToken c);
    let c := set_sendToken tq' c in
    SessionStore.SetClient token' client (set_client client c (set_sessions m st))
  else
    SessionStore.SetClient token client (set_client client c st).

(* case client := <-svr.unregister *)
Definition unregister (client : ClientPtr) (st : State) : result State :=
  c ← deref client st;
  if open c then
    let c := set_open false c in
    s ← chan_close (send c);
    t ← chan_close (sendToken c);
    Ok (set_client client (set_sendToken t (set_send s c)) st)
  else Ok st.

(* The closure that broadcastAll hands to Range. *)
Definition visit (now : Z) (message : list byte) (key : SessionToken)
    (ctx : Session) (acc : State * Counters) : result (bool * (State * Counters)) :=
  let '(st, n) := acc in
  if SessionStore.SessionExpired now ctx then
    Ok (true,
        (set_sessions (SessionStore.Delete (Token ctx) (sessions st)) st,
         mkCounters (int_add (expiredSessionCount n) 1) (closedClientCount n)
           (refreshedClientCount n) (messagesSent n)))
  else
    p ← match Client_ ctx with
        | Some p => Ok p
        | None => Panic NilDereference
        end;
    c ← deref p st;
    if negb (open c) then
      Ok (true,
          (st,
           mkCounters (expiredSessionCount n) (int_add (closedClientCount n) 1)
             (refreshedClientCount n) (messagesSent n)))
    else
      let ctx := mkSession (Token ctx)
                   (SessionStore.refreshExpiryTime sessionDuration now)
                   (Client_ ctx) in
      let st := set_sessions (<[key := ctx]> (sessions st)) st in
      let n := mkCounters (expiredSessionCount n) (closedClientCount n)
                 (int_add (refreshedClientCount n) 1) (messagesSent n) in
      sent ← chan_try_send message (send c);
      match sent with
      | Some q =>
          Ok (true,
              (set_client p (set_send q c) st,
               mkCounters (expiredSessionCount n) (closedClientCount n)
                 (refreshedClientCount n) (int_add (messagesSent n) 1)))
      | None =>
          s ← chan_close (send c);
          t ← chan_close (sendToken c);
          Ok (false, (set_client p (set_sendToken t (set_send s c)) st, n))
      end.

Definition zeroCounters : Counters := mkCounters 0 0 0 0.

(* func (svr *Server) broadcastAll(message []byte); the result carries the
   tallies of the log line. *)
Definition broadcastAll (now : Z) (order : list SessionToken)
    (message : list byte) (st : State) : result (State * Counters) :=
  SessionStore.Range (fun acc : State * Counters => sessions (fst acc))
    (visit now message) order (st, zeroCounters).

(** What the select of [Run] received, with what the environment decides
    for that turn: the reading of the clock, the draws of the token
    generator, the order in which the store is swept. *)
Inductive HubEvent :=
  | EvRegister (now : Z) (candidates : list SessionToken) (client : ClientPtr)
  | EvUnregister (client : ClientPtr)
  | EvBroadcast (now : Z) (order : list SessionToken) (message : list byte).

(* One turn of the for { select { ... } } of Run. *)
Definition Run_step (ev : HubEvent) (st : State) : result State :=
  match ev with
  | EvRegister now candidates client => register now candidates client st
  | EvUnregister client => unregister client st
  | EvBroadcast now order message =>
      '(st', _) ← broadcastAll now order message st; Ok st'
  end.

Fixpoint Run (evs : list HubEvent) (st : State) : result State :=
  match evs with
  | [] => Ok st
  | ev :: rest => st' ← Run_step ev st; Run rest st'
  end.

End Hub.

(** ** client.go: serveWs, up to the hand-over to the hub

    The upgraded connection gets a client with fresh queues; the token the
    request carried is put on the token queue, and the client is sent to
    the hub for registration. *)

Definition newClient : Client :=
  mkClient None (make 0) false (mkConn [] false)
    (make sendMsgBufferSize) (make sendTokenBufferSize).

Definition serveWs (sessionToken : string) (st : State)
    : result (ClientPtr * State) :=
  let p := fresh (dom (clients st)) in
  tq ← chan_send sessionToken (sendToken newClient);
  Ok (p, set_client p (set_sendToken tq newClient) st).

Definition emptyState : State := mkState ∅ ∅.

(** ** A run of the whole: accepted connections, hub turns, pump turns *)

Inductive Action :=
  | Accept (sessionToken : string)
  | Hub (ev : HubEvent)
  | Pump (client : ClientPtr) (evs : list PumpEvent).

(* serveWs spawns the pumps once it has received from client.start. *)
Definition run_writePump (client : ClientPtr) (evs : list PumpEvent)
    (st : State) : result State :=
  c ← deref client st;
  _ ← chan_recv () (start c);
  '(_, c') ← writePump evs c;
  Ok (set_client client c' st).

Definition act (sessionDuration : Z) (a : Action) (st : State) : result State :=
  match a with
  | Accept sessionToken => '(_, st') ← serveWs sessionToken st; Ok st'
  | Hub ev => Run_step sessionDuration ev st
  | Pump client evs => run_writePump client evs st
  end.

Fixpoint play (sessionDuration : Z) (acts : list Action) (st : State)
    : result State :=
  match acts with
  | [] => Ok st
  | a :: rest => st' ← act sessionDuration a st; play sessionDuration rest st'
  end.

(** Projections used to read a state. *)

Definition client_at (p : ClientPtr) (st : result State) : option Client :=
  match st with
  | Ok s => clients s !! p
  | _ => None
  end.

Definition session_at (k : SessionToken) (st : result State) : option Session :=
  match st with
  | Ok s => sessions s !! k
  | _ => None
  end.

Definition is_text (f : Frame) : bool :=
  match f with
  | TextMessage _ => true
  | _ => false
  end.

(** ** Vocabulary of the properties *)

(** The text frames on a wire, oldest first. *)
Definition text_frames (c : Client) : list Frame :=
  filter (fun f => is_text f = true) (written (conn c)).

(** A session is filed under its own token. *)
Definition store_wf (st : State) : Prop :=
  forall k s, sessions st !! k = Some s -> Token s = k.

(** The connection that the session of a token points to. *)
Definition bound_client (st : State) (k : SessionToken) : option ClientPtr :=
  sessions st !! k ≫= Client_.

(** The sessions of [order] point to connections that are all different
    (so [order] repeats no token either). *)
Definition distinct_clients (st : State) (order : list SessionToken) : Prop :=
  NoDup (bound_client st <$> order).

(** A session that a sweep at [now] can deliver to: unexpired, bound to an
    open connection whose message queue is open and under capacity. *)
Definition deliverable (now : Z) (st : State) (k : SessionToken) : Prop :=
  exists s p c,
    sessions st !! k = Some s
    /\ SessionStore.SessionExpired now s = false
    /\ Client_ s = Some p
    /\ clients st !! p = Some c
    /\ open c = true
    /\ closed (send c) = false
    /\ (len (send c) < cap (send c))%nat.

(** No queue of a connection was closed between two states. *)
Definition no_forced_close (st st' : State) : Prop :=
  forall p c c',
    clients st !! p = Some c -> clients st' !! p = Some c' ->
    closed (send c') = closed (send c)
    /\ closed (sendToken c') = closed (sendToken c).

(** The check of [no_forced_close] against one connection of the later
    state; it is decidable, so the relation can be computed on a sample. *)
Definition queues_kept (c : Client) (later : option Client) : Prop :=
  match later with
  | Some c' =>
      closed (send c') = closed (send c)
      /\ closed (sendToken c') = closed (sendToken c)
  | None => True
  end.

#[global] Instance queues_kept_dec (c : Client) (later : option Client) :
  Decision (queues_kept c later).
Proof. destruct later; simpl; apply _. Defined.

(** No deadline of the store lies more than one time-to-live after [t]:
    the clock has not run backwards since the deadlines were set. *)
Definition deadlines_bounded (sessionDuration t : Z) (st : State) : Prop :=
  map_Forall (fun _ s => expireTime s <= t + sessionDuration) (sessions st).

(** The session as the sweep leaves it after a delivery attempt. *)
Definition refreshed (sessionDuration now : Z) (ctx : Session) : Session :=
  mkSession (Token ctx) (SessionStore.refreshExpiryTime sessionDuration now)
    (Client_ ctx).

Definition force_closed (c : Client) : Client :=
  set_sendToken (Chan (buf (sendToken c)) (cap (sendToken c)) true)
    (set_send (Chan (buf (send c)) (cap (send c)) true) c).

Definition enqueued (message : list byte) (c : Client) : Client :=
  set_send (Chan (buf (send c) ++ [message]) (cap (send c)) false) c.

(** The four ways a visit of the sweep ends without a panic. *)
Inductive visit_outcome (sessionDuration now : Z) (message : list byte)
    (key : SessionToken) (ctx : Session) (st : State) (n : Counters)
    : bool -> State -> Counters -> Prop :=
  | VisitExpired :
      SessionStore.SessionExpired now ctx = true ->
      visit_outcome sessionDuration now message key ctx st n true
        (set_sessions (delete (Token ctx) (sessions st)) st)
        (mkCounters (int_add (expiredSessionCount n) 1) (closedClientCount n)
           (refreshedClientCount n) (messagesSent n))
  | VisitClosed p c :
      SessionStore.SessionExpired now ctx = false ->
      Client_ ctx = Some p -> clients st !! p = Some c -> open c = false ->
      visit_outcome sessionDuration now message key ctx st n true st
        (mkCounters (expiredSessionCount n) (int_add (closedClientCount n) 1)
           (refreshedClientCount n) (messagesSent n))
  | VisitSent p c :
      SessionStore.SessionExpired now ctx = false ->
      Client_ ctx = Some p -> clients st !! p = Some c -> open c = true ->
      closed (send c) = false -> (len (send c) < cap (send c))%nat ->
      visit_outcome sessionDuration now message key ctx st n true
        (mkState (<[key := refreshed sessionDuration now ctx]> (sessions st))
           (<[p := enqueued message c]> (clients st)))
        (mkCounters (expiredSessionCount n) (closedClientCount n)
           (int_add (refreshedClientCount n) 1) (int_add (messagesSent n) 1))
  | VisitFull p c :
      SessionStore.SessionExpired now ctx = false ->
      Client_ ctx = Some p -> clients st !! p = Some c -> open c = true ->
      closed (send c) = false -> closed (sendToken c) = false ->
      (cap (send c) <= len (send c))%nat ->
      visit_outcome sessionDuration now message key ctx st n false
        (mkState (<[key := refreshed sessionDuration now ctx]> (sessions st))
           (<[p := force_closed c]> (clients st)))
        (mkCounters (expiredSessionCount n) (closedClientCount n)
           (int_add (refreshedClientCount n) 1) (messagesSent n)).

(** How a session of the store after a sweep relates to the store [st0]
    the sweep started from: it was there, and either it is as it was, or
    its deadline is the refreshed one, it was unexpired, and the connection
    it points to was open. *)
Definition swept_from (sessionDuration now : Z) (st0 : State)
    (acc : State * Counters) : Prop :=
  (forall k s', sessions acc.1 !! k = Some s' ->
     exists s, sessions st0 !! k = Some s
       /\ Client_ s' = Client_ s
       /\ (expireTime s' = expireTime s
           \/ expireTime s' = now + sessionDuration
              /\ SessionStore.SessionExpired now s = false
              /\ exists p c, Client_ s = Some p /\ clients st0 !! p = Some c
                             /\ open c = true))
  /\ (forall p c', clients acc.1 !! p = Some c' ->
        exists c, clients st0 !! p = Some c /\ open c' = open c).

(** Every session of the store that points to a connection points to one
    the heap holds. *)
Definition points_into_heap (st : State) (s : Session) : Prop :=
  match Client_ s with
  | Some p => is_Some (clients st !! p)
  | None => True
  end.

#[global] Instance points_into_heap_dec (st : State) (s : Session) :
  Decision (points_into_heap st s).
Proof. unfold points_into_heap. destruct (Client_ s); apply _. Defined.

Definition heap_wf (st : State) : Prop :=
  map_Forall (fun _ s => points_into_heap st s) (sessions st).

(** The states of a run: both of the above. *)
Definition well_formed (st : State) : Prop := store_wf st /\ heap_wf st.

(** A connection between its registration with the minted token [t] and
    the first message put on its queue, as its write pump may find it: the
    message queue is open and empty, and the token is still queued, or was
    taken off the queue and is the only text frame on the wire, or was
    taken off the queue for a frame that the transport refused. *)
Definition token_pending (t : SessionToken) (c : Client) : Prop :=
  buf (send c) = [] /\ closed (send c) = false
  /\ closed (sendToken c) = false
  /\ (buf (sendToken c) = [t] /\ text_frames c = []
      \/ buf (sendToken c) = []
         /\ (text_frames c = []
             \/ text_frames c = [TextMessage (String.list_byte_of_string t)])).

(** ** Sample clients and runs *)

(** The time-to-live of the samples, and a payload. *)
Definition sampleTTL : Z := 1800.
Definition hello : list byte := String.list_byte_of_string "hello".

(** The state a run ends in. *)
Definition state_of (r : result State) : State :=
  match r with
  | Ok st => st
  | _ => emptyState
  end.

(** A client with three messages waiting. *)
Definition burstClient : Client :=
  set_send (Chan [String.list_byte_of_string "a"; String.list_byte_of_string "b";
                  String.list_byte_of_string "c"] sendMsgBufferSize false)
    newClient.

(** A client whose message queue the hub has closed and the pump has
    drained, and one whose token queue is in that state. *)
Definition closedSendClient : Client :=
  set_send (Chan [] sendMsgBufferSize true) newClient.
Definition closedTokenClient : Client :=
  set_sendToken (Chan [] sendTokenBufferSize true) newClient.

(** A connection registers with the token ["nil"] at time 0 and gets the
    token ["t1"]; its write pump is not scheduled while the hub broadcasts
    as many messages as the send queue holds. *)
Definition slowConsumer : list Action :=
  [Accept "nil"; Hub (EvRegister 0 ["t1"] 0%nat)]
  ++ repeat (Hub (EvBroadcast 1 ["t1"] hello)) sendMsgBufferSize.

(** A second connection joins once the first one's queue is full. *)
Definition slowAndFresh : list Action :=
  slowConsumer ++ [Accept "nil"; Hub (EvRegister 2 ["t1"; "t2"] 1%nat)].

(** A connection that has just been accepted with the token ["nil"], and
    one accepted with the token of a session the store holds. *)
Definition acceptedNil : State :=
  state_of (play sampleTTL [Accept "nil"] emptyState).
Definition acceptedKnown : State :=
  state_of (play sampleTTL
              [Accept "nil"; Hub (EvRegister 0 ["t1"] 0%nat); Accept "t1"]
              emptyState).

(** One registered connection, and a second one just accepted with the
    token ["nil"]. *)
Definition registeredOne : State :=
  state_of (play sampleTTL [Accept "nil"; Hub (EvRegister 0 ["t1"] 0%nat)] emptyState).
Definition acceptedSecond : State :=
  state_of (play sampleTTL
              [Accept "nil"; Hub (EvRegister 0 ["t1"] 0%nat); Accept "nil"]
              emptyState).

(** Three connections registered without a token, before any broadcast. *)
Definition threeRegistered : list Action :=
  [Accept ""; Hub (EvRegister 0 ["t1"] 0%nat);
   Accept ""; Hub (EvRegister 0 ["t1"; "t2"] 1%nat);
   Accept ""; Hub (EvRegister 0 ["t1"; "t2"; "t3"] 2%nat)].

(** Three connections register without a token and receive one
    broadcast. *)
Definition threeClients : list Action :=
  [Accept ""; Hub (EvRegister 0 ["t1"] 0%nat);
   Accept ""; Hub (EvRegister 0 ["t1"; "t2"] 1%nat);
   Accept ""; Hub (EvRegister 0 ["t1"; "t2"; "t3"] 2%nat);
   Hub (EvBroadcast 5 ["t1"; "t2"; "t3"] hello)].

Definition ping : list byte := String.list_byte_of_string "ping".

(** ** Vocabulary of the registry properties *)

(** The counter of the registry equals the number of its entries. *)
Definition length_tracks_entries {AppController : Type}
    (osl : OpenStreamsList.t AppController) : Prop :=
  OpenStreamsList.length osl = Z.of_nat (size (OpenStreamsList.streams osl)).

(** A registry of two controllers, numbered 1 and 2. *)
Definition sampleRegistry : OpenStreamsList.t nat :=
  OpenStreamsList.Add "a" 1%nat
    (OpenStreamsList.Add "b" 2%nat OpenStreamsList.NewOpenStreamsList).

(** ** client.go: the buffer diagnostics

    Both functions only log; the model answers whether the entry is
    logged.  The red zone starts above
    int(math.Floor(sendMsgBufferSize*sendMsgBufferWarningTrigger)), the
    whole part of 921.6. *)

Definition redZoneMark : nat := 921.

(* func (c *Client) logBufferRedZone() *)
Definition logBufferRedZone (c : Client) : bool :=
  (redZoneMark <? len (send c))%nat.

(* func (c *Client) logBufferFull() *)
Definition logBufferFull (c : Client) : bool :=
  (len (send c) =? sendMsgBufferSize)%nat.

(** ** Vocabulary of the further hub properties *)

(** A session that a sweep can visit without a panic: it points to a
    connection of the heap whose queues are open if its [open] flag is
    set. *)
Definition session_safe (st : State) (s : Session) : Prop :=
  match Client_ s with
  | Some p =>
      match clients st !! p with
      | Some c =>
          open c = true ->
          closed (send c) = false /\ closed (sendToken c) = false
      | None => False
      end
  | None => False
  end.

#[global] Instance session_safe_dec (st : State) (s : Session) :
  Decision (session_safe st s).
Proof.
  unfold session_safe. destruct (Client_ s); [|apply _].
  destruct (clients st !! _); apply _.
Defined.

Definition sweep_safe (st : State) : Prop :=
  map_Forall (fun _ s => session_safe st s) (sessions st).

(** Every connection of the later state was there before, with each of
    its queues closed or open as before. *)
Definition flags_kept (st st' : State) : Prop :=
  forall p c', clients st' !! p = Some c' ->
    exists c, clients st !! p = Some c
      /\ closed (send c') = closed (send c)
      /\ closed (sendToken c') = closed (sendToken c).

(** The fields of a connection that the hub's sweep and the pumps leave
    to others. *)
Definition same_but_queues (c c' : Client) : Prop :=
  open c' = open c /\ session c' = session c /\ start c' = start c
  /\ conn c' = conn c.

(** Exactly one connection had its queues closed between two states: it
    is still marked open, and every other connection is as in
    [flags_kept]. *)
Definition one_closed (st st' : State) : Prop :=
  exists p c c',
    clients st !! p = Some c /\ closed (send c) = false
    /\ clients st' !! p = Some c'
    /\ closed (send c') = true /\ closed (sendToken c') = true
    /\ open c' = true
    /\ forall q c1', q <> p -> clients st' !! q = Some c1' ->
         exists c1, clients st !! q = Some c1
           /\ closed (send c1') = closed (send c1)
           /\ closed (sendToken c1') = closed (sendToken c1).

(** ** Vocabulary of the pump properties *)

(** The payload of the text frame that the write pump makes of a message
    and of the messages queued behind it. *)
Definition frame_of (message : list byte) (queued : list (list byte)) : list byte :=
  message ++ concat (map (fun m => newline ++ m) queued).

Definition newline_free (message : list byte) : Prop := x0a ∉ message.

(** ** client.go: the read pump

    The frames that arrive on the transport are an input of the model, a
    read error among them.  [ReadMessage] answers an error for a frame
    above the read limit that readPump sets, [maxMessageSize].
    [TrimSpace] stands for bytes.TrimSpace of the Go library, which slices
    white space off both ends of its argument.  The request type is
    declared in a file that is not part of the sources at hand: a request
    holds the session of the connection and the payload.  The ingress
    queue of the middleware is a channel; the request to the hub's
    unregister channel is the event the pump hands back. *)

Definition maxMessageSize : N := 8192.
Definition space : list byte := [x20].

Inductive Incoming :=
  | InMessage (data : list byte)
  | InError.

Definition ReadMessage (i : Incoming) : option (list byte) :=
  match i with
  | InMessage data =>
      if (maxMessageSize <? N.of_nat (List.length data))%N then None else Some data
  | InError => None
  end.

(* bytes.Replace(message, newline, space, -1), both slices being one byte
   long: every newline byte becomes a space. *)
Definition replace_newlines (message : list byte) : list byte :=
  map (fun b => if Byte.eqb b x0a then x20 else b) message.

Record Request := mkRequest {
  req_session : SessionToken;
  req_message : list byte
}.

Section ReadPump.
Variable TrimSpace : list byte -> list byte.

(* message = bytes.TrimSpace(bytes.Replace(message, newline, space, -1)) *)
Definition normalize (message : list byte) : list byte :=
  TrimSpace (replace_newlines message).

(* defer func() { c.server.unregister <- c; c.conn.Close() }() *)
Definition readPump_exit (p : ClientPtr) (c : Client)
    : Client * list HubEvent :=
  (set_conn (mkConn (written (conn c)) true) c, [EvUnregister p]).

(* func (c *Client) readPump(), along the frames of [incoming]; the client
   is the one at the pointer [p].  The log line of each turn reads
   c.session.Token. *)
Fixpoint readPump (p : ClientPtr) (incoming : list Incoming) (c : Client)
    (ingress : chan Request)
    : result (PumpStatus * Client * chan Request * list HubEvent) :=
  match incoming with
  | [] => Ok (Running, c, ingress, [])
  | i :: rest =>
      match ReadMessage i with
      | None =>
          let '(c', evs) := readPump_exit p c in
          Ok (Returned, c', ingress, evs)
      | Some message =>
          let message := normalize message in
          token ← match session c with
                  | Some token => Ok token
                  | None => Panic NilDereference
                  end;
          ingress' ← chan_send (mkRequest token message) ingress;
          readPump p rest c ingress'
      end
  end.

End ReadPump.

(** White space of the ASCII range, and the slicing of it off both ends:
    what bytes.TrimSpace does to a message of ASCII bytes. *)
Definition ascii_space (b : byte) : bool :=
  match b with
  | x09 | x0a | x0b | x0c | x0d | x20 => true
  | _ => false
  end.

Fixpoint trim_left (message : list byte) : list byte :=
  match message with
  | b :: rest => if ascii_space b then trim_left rest else message
  | [] => []
  end.

Definition trim_ascii (message : list byte) : list byte :=
  rev (trim_left (rev (trim_left message))).

(** ** client.go: serveWs, from the request on

    The answer to an upgrade request: the secret gate, the upgrade, and
    then the hand-over modelled above. *)

Inductive WsAnswer :=
  | NotAuthorized
  | UpgradeFailed
  | Upgraded (client : ClientPtr).

Definition serveWs_request (sessionToken clientSecret : string)
    (upgradeErr : bool) (st : State) : result (WsAnswer * State) :=
  if clientSecretRequired && negb (validClientSecret clientSecret)
  then Ok (NotAuthorized, st)
  else if upgradeErr then Ok (UpgradeFailed, st)
  else '(p, st') ← serveWs sessionToken st; Ok (Upgraded p, st').

(** A frame one byte above the read limit. *)
Definition oversized : list byte := repeat x61 (8 * 1024 + 1).

(** Two connections register at time 0; the second one is unregistered at
    once, so that sweeps pass over its session without refreshing it; the
    hub then broadcasts at time 1000 until the queue of the first one,
    whose write pump is not scheduled, is full.  At time 2000 the session
    ["t1"] is unexpired (deadline 1000 + TTL) and ["t2"] has lapsed
    (deadline 0 + TTL). *)
Definition lapsedBehindFull : list Action :=
  [Accept "nil"; Hub (EvRegister 0 ["t1"] 0%nat);
   Accept "nil"; Hub (EvRegister 0 ["t1"; "t2"] 1%nat);
   Hub (EvUnregister 1%nat)]
  ++ repeat (Hub (EvBroadcast 1000 ["t1"; "t2"] hello)) sendMsgBufferSize.

(** * Properties *)

(** ** The open-streams registry *)

(** C10: [Delete] lowers the length counter whether or not the token is
    registered; on the empty registry a [Delete] leaves the counter at -1,
    so [IsEmpty] answers false although the map holds no entry. *)
Theorem Delete_absent_counts_down (AppController : Type)
    (token : SessionToken) (osl : OpenStreamsList.t AppController) :
  OpenStreamsList.length (OpenStreamsList.Delete token osl)
    = int_sub (OpenStreamsList.length osl) 1
  /\ OpenStreamsList.length
       (OpenStreamsList.Delete token (@OpenStreamsList.NewOpenStreamsList AppController))
     = -1
  /\ OpenStreamsList.IsEmpty
       (OpenStreamsList.Delete token (@OpenStreamsList.NewOpenStreamsList AppController))
     = false
  /\ OpenStreamsList.streams
       (OpenStreamsList.Delete token (@OpenStreamsList.NewOpenStreamsList AppController))
     = ∅
  /\ OpenStreamsList.Exists token
       (@OpenStreamsList.NewOpenStreamsList AppController) = false.
Proof.
  unfold OpenStreamsList.Delete, OpenStreamsList.NewOpenStreamsList,
    OpenStreamsList.IsEmpty, OpenStreamsList.Exists; simpl.
  rewrite delete_empty, lookup_empty.
  repeat split; reflexivity.
Qed.

(** ** The write pump *)

Section WritePump.

Lemma set_send_same (c : Client) : set_send (send c) c = c.
Proof. destruct c; reflexivity. Qed.

Lemma set_sendToken_same (c : Client) : set_sendToken (sendToken c) c = c.
Proof. destruct c; reflexivity. Qed.

(** Draining as many values as the buffer holds empties it, and appends
    every value to the frame behind one newline each. *)
Lemma drain_all {A} (zero : A) (bytes_of : A -> list byte) (q : list A)
    (n : nat) (cl : bool) (w : list byte) :
  drain zero bytes_of (List.length q) (Chan q n cl) w
  = Ok (Chan [] n cl, w ++ concat (map (fun v => newline ++ bytes_of v) q)).
Proof.
  revert w; induction q as [|v q IH]; intros w; simpl.
  - by rewrite app_nil_r.
  - unfold chan_recv; simpl. rewrite IH. by rewrite <- !app_assoc.
Qed.

End WritePump.

(** C9: woken by a message, the pump writes it and then every message the
    send queue holds at that moment, each behind a newline, into one text
    frame; the queue is empty afterwards and the pump goes on. *)
Theorem writePump_batches_queued (c : Client) (message : list byte)
    (queued : list (list byte)) :
  buf (send c) = message :: queued ->
  writePump_iter (OnSend false false) c
  = Ok (Running,
        conn_write
          (TextMessage (message ++ concat (map (fun m => newline ++ m) queued)))
          (set_send (Chan [] (cap (send c)) (closed (send c))) c)).
Proof.
  intros Hbuf. unfold writePump_iter, chan_recv. rewrite Hbuf. simpl.
  unfold len; simpl. rewrite (drain_all [] id queued). simpl.
  destruct c; reflexivity.
Qed.

Lemma writePump_batches_queued_witness :
  written (conn burstClient) = []
  /\ exists c',
       writePump_iter (OnSend false false) burstClient = Ok (Running, c')
       /\ written (conn c')
          = [TextMessage (String.list_byte_of_string "a" ++ newline
                          ++ String.list_byte_of_string "b" ++ newline
                          ++ String.list_byte_of_string "c")]
       /\ buf (send c') = [].
Proof.
  split; [reflexivity|].
  eexists. split.
  - apply (writePump_batches_queued burstClient
             (String.list_byte_of_string "a")
             [String.list_byte_of_string "b"; String.list_byte_of_string "c"]).
    reflexivity.
  - split; reflexivity.
Defined.

(** C4, as stated, fails: the pump that finds the message queue closed
    returns with nothing written, so no close frame is on the wire. *)
Lemma writePump_closed_send_writes_nothing :
  buf (send closedSendClient) = []
  /\ closed (send closedSendClient) = true
  /\ writePump [OnSend false false] closedSendClient
     = Ok (Returned, pump_exit closedSendClient)
  /\ written (conn (pump_exit closedSendClient)) = []
  /\ CloseMessage ∉ written (conn (pump_exit closedSendClient)).
Proof.
  repeat split; try reflexivity.
  simpl. apply not_elem_of_nil.
Qed.

(** C4, amended: on a closed and drained message queue the pump returns
    and writes no frame (the transport is closed by the deferred exit); on
    a closed and drained token queue it writes one close frame and then
    returns.  No later turn of the loop runs in either case. *)
Theorem writePump_closed_queue_returns (c : Client) (nextWriterErr closeErr : bool)
    (rest : list PumpEvent) :
  (buf (send c) = [] -> closed (send c) = true ->
     writePump (OnSend nextWriterErr closeErr :: rest) c
     = Ok (Returned, pump_exit c)
     /\ written (conn (pump_exit c)) = written (conn c)
     /\ connClosed (conn (pump_exit c)) = true)
  /\ (buf (sendToken c) = [] -> closed (sendToken c) = true ->
     writePump (OnToken nextWriterErr closeErr :: rest) c
     = Ok (Returned, pump_exit (conn_write CloseMessage c))
     /\ written (conn (pump_exit (conn_write CloseMessage c)))
        = written (conn c) ++ [CloseMessage]).
Proof.
  split; intros Hbuf Hclosed.
  - cbn [writePump writePump_iter]. unfold chan_recv. rewrite Hbuf, Hclosed.
    simpl. rewrite set_send_same. repeat split.
  - cbn [writePump writePump_iter]. unfold chan_recv. rewrite Hbuf, Hclosed.
    simpl. rewrite set_sendToken_same. repeat split.
Qed.

Lemma writePump_closed_queue_returns_witness :
  (writePump [OnSend false false; OnTick false] closedSendClient
   = Ok (Returned, pump_exit closedSendClient)
   /\ written (conn (pump_exit closedSendClient)) = []
   /\ connClosed (conn (pump_exit closedSendClient)) = true)
  /\ (writePump [OnToken false false; OnTick false] closedTokenClient
      = Ok (Returned, pump_exit (conn_write CloseMessage closedTokenClient))
      /\ written (conn (pump_exit (conn_write CloseMessage closedTokenClient)))
         = [CloseMessage]).
Proof.
  split.
  - apply (writePump_closed_queue_returns closedSendClient false false [OnTick false]);
      reflexivity.
  - apply (writePump_closed_queue_returns closedTokenClient false false [OnTick false]);
      reflexivity.
Defined.

(** ** The broadcast sweep at a full queue *)

(** C1: the code at a failing input.  Connection 0 holds a full send
    queue, connection 1 an empty one.  A sweep that reaches the session of
    connection 0 first closes both of its queues and ends there: the
    message is not put on the queue of connection 1 and the deadline of its
    session stays where it was; swept in the other order, connection 1 is
    served. *)
Theorem broadcastAll_stops_at_full_queue :
  let before := play sampleTTL slowAndFresh emptyState in
  let after :=
    play sampleTTL (slowAndFresh ++ [Hub (EvBroadcast 3 ["t1"; "t2"] hello)])
      emptyState in
  let other :=
    play sampleTTL (slowAndFresh ++ [Hub (EvBroadcast 3 ["t2"; "t1"] hello)])
      emptyState in
  (send <$> client_at 0 before
     = Some (Chan (repeat hello sendMsgBufferSize) sendMsgBufferSize false)
   /\ send <$> client_at 1 before = Some (Chan [] sendMsgBufferSize false)
   /\ open <$> client_at 1 before = Some true
   /\ expireTime <$> session_at "t2" before = Some (2 + sampleTTL))
  /\ (closed ∘ send <$> client_at 0 after = Some true
      /\ closed ∘ sendToken <$> client_at 0 after = Some true
      /\ send <$> client_at 1 after = Some (Chan [] sendMsgBufferSize false)
      /\ expireTime <$> session_at "t2" after = Some (2 + sampleTTL))
  /\ (closed ∘ send <$> client_at 0 other = Some true
      /\ send <$> client_at 1 other = Some (Chan [hello] sendMsgBufferSize false)
      /\ expireTime <$> session_at "t2" other = Some (3 + sampleTTL)).
Proof. vm_compute. repeat split. Qed.

(** C3: the code at a failing input.  The sweep that closes the queues of
    the overloaded connection 0 leaves its [open] flag set, so the
    unregister request that follows closes the message queue a second time
    and the hub panics; so does the next sweep, which sends on the closed
    queue.  Two unregister requests in a row are harmless. *)
Theorem unregister_after_forced_close_closes_twice :
  let swept :=
    play sampleTTL (slowConsumer ++ [Hub (EvBroadcast 3 ["t1"] hello)])
      emptyState in
  (open <$> client_at 0 swept = Some true
   /\ closed ∘ send <$> client_at 0 swept = Some true
   /\ closed ∘ sendToken <$> client_at 0 swept = Some true)
  /\ play sampleTTL
       (slowConsumer ++ [Hub (EvBroadcast 3 ["t1"] hello); Hub (EvUnregister 0%nat)])
       emptyState
     = Panic CloseOfClosedChannel
  /\ play sampleTTL
       (slowConsumer ++ [Hub (EvBroadcast 3 ["t1"] hello);
                         Hub (EvBroadcast 4 ["t1"] hello)])
       emptyState
     = Panic SendOnClosedChannel
  /\ play sampleTTL
       (slowConsumer ++ [Hub (EvUnregister 0%nat); Hub (EvUnregister 0%nat)])
       emptyState
     = play sampleTTL (slowConsumer ++ [Hub (EvUnregister 0%nat)]) emptyState
  /\ open <$> client_at 0
       (play sampleTTL (slowConsumer ++ [Hub (EvUnregister 0%nat)]) emptyState)
     = Some false.
Proof. vm_compute. repeat split. Qed.

(** ** Registration *)

Section Registration.
Variable sessionDuration : Z.

Lemma Exists_true (token : SessionToken) (m : gmap string Session) :
  SessionStore.Exists token m = true <-> is_Some (m !! token).
Proof. unfold SessionStore.Exists. apply bool_decide_eq_true. Qed.

Lemma Exists_false (token : SessionToken) (m : gmap string Session) :
  SessionStore.Exists token m = false <-> m !! token = None.
Proof.
  unfold SessionStore.Exists. rewrite bool_decide_eq_false.
  rewrite eq_None_not_Some. reflexivity.
Qed.

Lemma freshToken_unused (candidates : list SessionToken)
    (m : gmap string Session) (t : SessionToken) :
  SessionStore.freshToken candidates m = Some t -> m !! t = None.
Proof.
  induction candidates as [|a rest IH]; simpl; [discriminate|].
  destruct (SessionStore.Exists a m) eqn:E; [exact IH|].
  intros [= <-]. by apply Exists_false.
Qed.

(** The token that [NewSession] answers is unused in the old store and
    names a session without a connection in the new one. *)
Lemma NewSession_ok (now : Z) (candidates : list SessionToken)
    (m m' : gmap string Session) (t : SessionToken) :
  SessionStore.NewSession sessionDuration now candidates m = (t, false, m') ->
  m !! t = None
  /\ m' = <[t := mkSession t (now + sessionDuration) None]> m.
Proof.
  unfold SessionStore.NewSession.
  destruct (SessionStore.freshToken candidates m) as [t'|] eqn:E; [|discriminate].
  intros [= <- <-]. split; [by eapply freshToken_unused | reflexivity].
Qed.

Lemma NewSession_err (now : Z) (candidates : list SessionToken)
    (m m' : gmap string Session) (t : SessionToken) :
  SessionStore.NewSession sessionDuration now candidates m = (t, true, m') ->
  t = EmptyString /\ m' = m.
Proof.
  unfold SessionStore.NewSession.
  destruct (SessionStore.freshToken candidates m); [discriminate|].
  by intros [= <- <-].
Qed.

(** The registration of a connection that comes from [serveWs] with a
    token that is ["nil"] or unknown: whatever [NewSession] answers is sent
    on the token queue, and the minted session is bound. *)
Lemma register_mint (now : Z) (candidates : list SessionToken) (p : ClientPtr)
    (st : State) (c : Client) (token minted : SessionToken) (err : bool)
    (m : gmap string Session) :
  clients st !! p = Some c ->
  sendToken c = Chan [token] sendTokenBufferSize false ->
  token = "nil" \/ sessions st !! token = None ->
  SessionStore.NewSession sessionDuration now candidates (sessions st)
    = (minted, err, m) ->
  register sessionDuration now candidates p st
  = SessionStore.SetClient minted p
      (set_client p
         (set_sendToken (Chan [minted] sendTokenBufferSize false) (set_open true c))
         (set_sessions m st)).
Proof.
  intros Hc Htq Htok Hnew. unfold register, deref. rewrite Hc. simpl.
  rewrite Htq. unfold chan_recv. simpl.
  assert ((token =? "nil")%string || negb (SessionStore.Exists token (sessions st)) = true)
    as ->.
  { destruct Htok as [->|Hn]; [reflexivity|].
    apply Exists_false in Hn. rewrite Hn. apply orb_true_r. }
  rewrite Hnew. reflexivity.
Qed.

Lemma register_known (now : Z) (candidates : list SessionToken) (p : ClientPtr)
    (st : State) (c : Client) (token : SessionToken) :
  clients st !! p = Some c ->
  sendToken c = Chan [token] sendTokenBufferSize false ->
  token <> "nil" -> is_Some (sessions st !! token) ->
  register sessionDuration now candidates p st
  = SessionStore.SetClient token p
      (set_client p
         (set_sendToken (Chan [] sendTokenBufferSize false) (set_open true c)) st).
Proof.
  intros Hc Htq Hnil Hex. unfold register, deref. rewrite Hc. simpl.
  rewrite Htq. unfold chan_recv. simpl.
  apply String.eqb_neq in Hnil. rewrite Hnil.
  apply Exists_true in Hex. rewrite Hex. reflexivity.
Qed.

Lemma SetClient_bound (token : SessionToken) (p : ClientPtr) (st : State)
    (s : Session) (c : Client) :
  sessions st !! token = Some s -> clients st !! p = Some c ->
  SessionStore.SetClient token p st
  = Ok (mkState
          (<[token := mkSession (Token s) (expireTime s) (Some p)]> (sessions st))
          (<[p := set_start (Chan (buf (start c)) (cap (start c)) true)
                    (set_session (Some token) c)]> (clients st))).
Proof.
  intros Hs Hc. unfold SessionStore.SetClient, deref. rewrite Hs, Hc. reflexivity.
Qed.

Lemma SetClient_unknown (token : SessionToken) (p : ClientPtr) (st : State) :
  sessions st !! token = None -> SessionStore.SetClient token p st = Ok st.
Proof. intros Hs. unfold SessionStore.SetClient. by rewrite Hs. Qed.

End Registration.

(** C5: a connection handed over by [serveWs] with the token ["nil"] or a
    token the store does not hold makes the hub call [NewSession] and put
    the token it answers on the connection's token queue; when the call
    succeeds the minted token was not in the store, and its session is
    added to the store and bound to the connection; with a
    token the store holds, nothing is minted or sent: the store keeps its
    keys, the token queue is left empty, and the session of that token is
    bound to the connection. *)
Theorem register_mints_or_binds (sessionDuration now : Z)
    (candidates : list SessionToken) (p : ClientPtr) (st : State) (c : Client)
    (token : SessionToken) :
  clients st !! p = Some c ->
  sendToken c = Chan [token] sendTokenBufferSize false ->
  (token = "nil" \/ sessions st !! token = None ->
   forall minted err m,
     SessionStore.NewSession sessionDuration now candidates (sessions st)
       = (minted, err, m) ->
     exists st' c',
       register sessionDuration now candidates p st = Ok st'
       /\ clients st' !! p = Some c'
       /\ sendToken c' = Chan [minted] sendTokenBufferSize false
       /\ open c' = true
       /\ (err = false ->
           sessions st !! minted = None
           /\ sessions st'
              = <[minted := mkSession minted (now + sessionDuration) (Some p)]>
                  (sessions st)
           /\ session c' = Some minted))
  /\ (token <> "nil" ->
      forall s, sessions st !! token = Some s ->
      exists st' c',
        register sessionDuration now candidates p st = Ok st'
        /\ sessions st'
           = <[token := mkSession (Token s) (expireTime s) (Some p)]> (sessions st)
        /\ dom (sessions st') = dom (sessions st)
        /\ clients st' !! p = Some c'
        /\ sendToken c' = Chan [] sendTokenBufferSize false
        /\ session c' = Some token
        /\ open c' = true).
Proof.
  intros Hc Htq. split.
  - intros Htok minted err m Hnew.
    rewrite (register_mint _ _ _ _ _ _ _ _ _ _ Hc Htq Htok Hnew).
    destruct (m !! minted) as [s|] eqn:Hm.
    + erewrite SetClient_bound;
        [| simpl; exact Hm | simpl; apply lookup_insert_eq].
      eexists _, _. split; [reflexivity|]. simpl.
      rewrite lookup_insert_eq. do 3 (split; [reflexivity|]).
      intros ->. destruct (NewSession_ok _ _ _ _ _ _ Hnew) as [Hfresh ->].
      rewrite lookup_insert_eq in Hm. injection Hm as <-. simpl.
      by rewrite insert_insert_eq.
    + rewrite SetClient_unknown by exact Hm.
      eexists _, _. split; [reflexivity|]. simpl.
      rewrite lookup_insert_eq. do 3 (split; [reflexivity|]).
      intros ->. destruct (NewSession_ok _ _ _ _ _ _ Hnew) as [_ ->].
      by rewrite lookup_insert_eq in Hm.
  - intros Hnil s Hs.
    rewrite (register_known _ _ _ _ _ _ _ Hc Htq Hnil (mk_is_Some _ _ Hs)).
    erewrite SetClient_bound; [| simpl; exact Hs | simpl; apply lookup_insert_eq].
    eexists _, _. split; [reflexivity|]. simpl.
    rewrite lookup_insert_eq. repeat split.
    rewrite dom_insert_L. apply elem_of_dom_2 in Hs.
    apply subseteq_union_1_L. by apply singleton_subseteq_l.
Qed.

Lemma register_mints_or_binds_witness :
  (exists st' c',
     register sampleTTL 0 ["t1"] 0%nat acceptedNil = Ok st'
     /\ clients st' !! 0%nat = Some c'
     /\ sendToken c' = Chan ["t1"] sendTokenBufferSize false
     /\ session_at "t1" (Ok st') = Some (mkSession "t1" (0 + sampleTTL) (Some 0%nat)))
  /\ (exists st' c',
        register sampleTTL 5 ["t9"] 1%nat acceptedKnown = Ok st'
        /\ dom (sessions st') = dom (sessions acceptedKnown)
        /\ clients st' !! 1%nat = Some c'
        /\ sendToken c' = Chan [] sendTokenBufferSize false
        /\ session c' = Some "t1").
Proof.
  split.
  - destruct (register_mints_or_binds sampleTTL 0 ["t1"] 0%nat acceptedNil
                (set_sendToken (Chan ["nil"] sendTokenBufferSize false) newClient)
                "nil" eq_refl eq_refl) as [Hmint _].
    destruct (Hmint (or_introl eq_refl) "t1" false _ eq_refl)
      as (st' & c' & Hreg & Hc & Htq & _ & Hstore).
    exists st', c'. repeat split; try assumption.
    unfold session_at. destruct (Hstore eq_refl) as (_ & -> & _).
    apply lookup_insert_eq.
  - destruct (register_mints_or_binds sampleTTL 5 ["t9"] 1%nat acceptedKnown
                (set_sendToken (Chan ["t1"] sendTokenBufferSize false) newClient)
                "t1" eq_refl eq_refl) as [_ Hbind].
    destruct (Hbind ltac:(discriminate) (mkSession "t1" (0 + sampleTTL) (Some 0%nat)) eq_refl)
      as (st' & c' & Hreg & _ & Hdom & Hc & Htq & Hs & _).
    exists st', c'. repeat split; assumption.
Defined.

(** ** The broadcast sweep, visit by visit *)

Section Sweep.
Variable sessionDuration : Z.
Variable now : Z.
Variable message : list byte.

Lemma visit_inv (key : SessionToken) (ctx : Session) (st st' : State)
    (n n' : Counters) (b : bool) :
  visit sessionDuration now message key ctx (st, n) = Ok (b, (st', n')) ->
  visit_outcome sessionDuration now message key ctx st n b st' n'.
Proof.
  unfold visit.
  destruct (SessionStore.SessionExpired now ctx) eqn:Hexp.
  { intros [= <- <- <-]. by constructor. }
  destruct (Client_ ctx) as [p|] eqn:Hp; [|discriminate]. simpl.
  unfold deref. destruct (clients st !! p) as [c|] eqn:Hc; [|discriminate]. simpl.
  destruct (open c) eqn:Hopen; simpl.
  2:{ intros [= <- <- <-].
      exact (VisitClosed sessionDuration now message key ctx st n p c
               Hexp Hp Hc Hopen). }
  unfold chan_try_send. destruct (closed (send c)) eqn:Hcl; [discriminate|].
  destruct (len (send c) <? cap (send c))%nat eqn:Hlen; simpl.
  { intros [= <- <- <-]. apply Nat.ltb_lt in Hlen.
    pose proof (VisitSent sessionDuration now message key ctx st n p c
                  Hexp Hp Hc Hopen Hcl Hlen) as H.
    unfold refreshed in H. rewrite Hp in H. exact H. }
  unfold chan_close. rewrite Hcl. simpl.
  destruct (closed (sendToken c)) eqn:Hclt; [discriminate|]. simpl.
  intros [= <- <- <-]. apply Nat.ltb_ge in Hlen.
  pose proof (VisitFull sessionDuration now message key ctx st n p c
                Hexp Hp Hc Hopen Hcl Hclt Hlen) as H.
  unfold refreshed in H. rewrite Hp in H. exact H.
Qed.

Lemma visit_intro (key : SessionToken) (ctx : Session) (st st' : State)
    (n n' : Counters) (b : bool) :
  visit_outcome sessionDuration now message key ctx st n b st' n' ->
  visit sessionDuration now message key ctx (st, n) = Ok (b, (st', n')).
Proof.
  intros H. unfold visit, deref.
  destruct H as [Hexp | p c Hexp Hp Hc Hopen | p c Hexp Hp Hc Hopen Hcl Hlen
                | p c Hexp Hp Hc Hopen Hcl Hclt Hlen];
    rewrite Hexp; [reflexivity| | |];
    rewrite Hp; simpl; rewrite Hc; simpl; rewrite Hopen; simpl; [reflexivity| |].
  - unfold chan_try_send, refreshed. rewrite Hcl, Hp.
    apply Nat.ltb_lt in Hlen. rewrite Hlen. reflexivity.
  - unfold chan_try_send, chan_close, refreshed. rewrite Hcl, Hp.
    apply Nat.ltb_ge in Hlen. rewrite Hlen. simpl. rewrite Hclt. reflexivity.
Qed.

(** Induction over a sweep: what every visit preserves holds at the end. *)
Lemma Range_invariant (I : State * Counters -> Prop) :
  (forall key ctx st n b st' n',
     I (st, n) -> sessions st !! key = Some ctx ->
     visit_outcome sessionDuration now message key ctx st n b st' n' ->
     I (st', n')) ->
  forall order acc acc',
    I acc ->
    SessionStore.Range (fun a : State * Counters => sessions (fst a))
      (visit sessionDuration now message) order acc = Ok acc' ->
    I acc'.
Proof.
  intros Hstep order. induction order as [|key rest IH]; intros acc acc' HI; simpl.
  - by intros [= <-].
  - destruct (sessions acc.1 !! key) as [ctx|] eqn:Hk; [|by apply IH].
    destruct acc as [st n].
    destruct (visit sessionDuration now message key ctx (st, n))
      as [[b [st1 n1]]| |] eqn:Hv; simpl; try discriminate.
    apply visit_inv in Hv.
    assert (I (st1, n1)) as HI1 by (eapply Hstep; eauto).
    destruct b; [by apply IH | by intros [= <-]].
Qed.

End Sweep.

Section SweepFacts.
Variable sessionDuration : Z.
Variable now : Z.
Variable message : list byte.

Abbreviation sweep := (SessionStore.Range
  (fun a : State * Counters => sessions (fst a))
  (visit sessionDuration now message)).

(** What a visit does to the store. *)
Lemma visit_store (key : SessionToken) (ctx : Session) (st st' : State)
    (n n' : Counters) (b : bool) :
  visit_outcome sessionDuration now message key ctx st n b st' n' ->
  sessions st' = delete (Token ctx) (sessions st)
                 /\ SessionStore.SessionExpired now ctx = true
  \/ sessions st' = sessions st
     /\ SessionStore.SessionExpired now ctx = false
  \/ sessions st' = <[key := refreshed sessionDuration now ctx]> (sessions st)
     /\ SessionStore.SessionExpired now ctx = false
     /\ exists p c, Client_ ctx = Some p /\ clients st !! p = Some c
                    /\ open c = true.
Proof.
  intros [Hexp | p c Hexp Hp Hc Hopen | p c Hexp Hp Hc Hopen Hcl Hlen
         | p c Hexp Hp Hc Hopen Hcl Hclt Hlen]; simpl; eauto 10.
Qed.

Lemma visit_wf (key : SessionToken) (ctx : Session) (st st' : State)
    (n n' : Counters) (b : bool) :
  store_wf st -> sessions st !! key = Some ctx ->
  visit_outcome sessionDuration now message key ctx st n b st' n' ->
  store_wf st'.
Proof.
  intros Hwf Hk Hv k s.
  destruct (visit_store _ _ _ _ _ _ _ Hv) as [[-> _]|[[-> _]|[-> _]]].
  - intros [_ Hs]%lookup_delete_Some. by apply Hwf.
  - apply Hwf.
  - destruct (decide (key = k)) as [->|Hne].
    + rewrite lookup_insert_eq. intros [= <-]. simpl. by apply Hwf.
    + rewrite lookup_insert_ne by done. apply Hwf.
Qed.

Lemma visit_other_key (key k : SessionToken) (ctx : Session) (st st' : State)
    (n n' : Counters) (b : bool) :
  store_wf st -> sessions st !! key = Some ctx -> key <> k ->
  visit_outcome sessionDuration now message key ctx st n b st' n' ->
  sessions st' !! k = sessions st !! k.
Proof.
  intros Hwf Hk Hne Hv.
  destruct (visit_store _ _ _ _ _ _ _ Hv) as [[-> _]|[[-> _]|[-> _]]].
  - apply lookup_delete_ne. by rewrite (Hwf _ _ Hk).
  - reflexivity.
  - by apply lookup_insert_ne.
Qed.

Lemma visit_stays_absent (key k : SessionToken) (ctx : Session) (st st' : State)
    (n n' : Counters) (b : bool) :
  sessions st !! k = None -> sessions st !! key = Some ctx ->
  visit_outcome sessionDuration now message key ctx st n b st' n' ->
  sessions st' !! k = None.
Proof.
  intros Hnone Hk Hv.
  destruct (visit_store _ _ _ _ _ _ _ Hv) as [[-> _]|[[-> _]|[-> _]]].
  - apply lookup_delete_None. by right.
  - exact Hnone.
  - rewrite lookup_insert_ne; [exact Hnone|]. intros ->. congruence.
Qed.

(** A visit that lets the sweep go on closes no queue and keeps every
    [open] flag; one that stops it has closed an open message queue. *)
Lemma visit_continue_flags (key : SessionToken) (ctx : Session) (st st' : State)
    (n n' : Counters) :
  visit_outcome sessionDuration now message key ctx st n true st' n' ->
  forall p c', clients st' !! p = Some c' ->
    exists c, clients st !! p = Some c
              /\ closed (send c') = closed (send c)
              /\ closed (sendToken c') = closed (sendToken c)
              /\ open c' = open c.
Proof.
  intros Hv. inversion Hv as [Hexp | q c Hexp Hp Hc Hopen
                             | q c Hexp Hp Hc Hopen Hcl Hlen | ]; subst;
    intros p c' Hc'; simpl in *; eauto.
  destruct (decide (q = p)) as [->|Hne].
  - rewrite lookup_insert_eq in Hc'. injection Hc' as <-.
    exists c. simpl. by rewrite Hcl.
  - rewrite lookup_insert_ne in Hc' by done. eauto.
Qed.

Lemma visit_stop_closes (key : SessionToken) (ctx : Session) (st st' : State)
    (n n' : Counters) :
  visit_outcome sessionDuration now message key ctx st n false st' n' ->
  exists p c, clients st !! p = Some c /\ closed (send c) = false
              /\ clients st' !! p = Some (force_closed c).
Proof.
  intros Hv. inversion Hv; subst. eexists _, _. split; [eassumption|].
  split; [assumption|]. simpl. apply lookup_insert_eq.
Qed.

Lemma sweep_cons (key : SessionToken) (rest : list SessionToken)
    (st : State) (n : Counters) :
  sweep (key :: rest) (st, n)
  = match sessions st !! key with
    | None => sweep rest (st, n)
    | Some ctx =>
        '(b, acc') ← visit sessionDuration now message key ctx (st, n);
        if b : bool then sweep rest acc' else Ok acc'
    end.
Proof. reflexivity. Qed.

Lemma sweep_stays_absent (k : SessionToken) (order : list SessionToken)
    (st st' : State) (n n' : Counters) :
  sessions st !! k = None -> sweep order (st, n) = Ok (st', n') ->
  sessions st' !! k = None.
Proof.
  intros Hnone Hsweep.
  apply (Range_invariant sessionDuration now message
           (fun acc => sessions acc.1 !! k = None)) in Hsweep; [exact Hsweep| |exact Hnone].
  intros key ctx st0 n0 b st1 n1 H0 Hk Hv. simpl in *.
  by eapply visit_stays_absent.
Qed.

(** A sweep that closes no queue has visited every key of its order, and
    every expired session among them is gone at its end. *)
Lemma sweep_removes_expired (order : list SessionToken) :
  forall st st' n n',
    sweep order (st, n) = Ok (st', n') ->
    store_wf st -> no_forced_close st st' ->
    forall k s, k ∈ order -> sessions st !! k = Some s ->
      SessionStore.SessionExpired now s = true ->
      sessions st' !! k = None.
Proof.
  induction order as [|key rest IH]; intros st st' n n' Hsweep Hwf Hnfc k s Hin Hk Hexp.
  { by apply elem_of_nil in Hin. }
  rewrite sweep_cons in Hsweep.
  destruct (sessions st !! key) as [ctx|] eqn:Hkey.
  2:{ apply elem_of_cons in Hin as [->|Hin]; [congruence|]. eapply IH; eauto. }
  destruct (visit sessionDuration now message key ctx (st, n))
    as [[b [st1 n1]]| |] eqn:Hv; simpl in Hsweep; try discriminate.
  apply visit_inv in Hv. destruct b.
  - assert (no_forced_close st1 st') as Hnfc1.
    { intros p c1 c' Hc1 Hc'.
      destruct (visit_continue_flags _ _ _ _ _ _ Hv p c1 Hc1)
        as (c & Hc & Hs & Ht & _).
      destruct (Hnfc p c c' Hc Hc') as [Hs' Ht']. split; congruence. }
    destruct (decide (key = k)) as [->|Hne].
    + assert (ctx = s) as -> by congruence.
      eapply sweep_stays_absent; [|exact Hsweep].
      inversion Hv; subst; try congruence. simpl.
      rewrite (Hwf _ _ Hk). apply lookup_delete_eq.
    + apply elem_of_cons in Hin as [->|Hin]; [done|].
      apply (IH st1 st' n1 n' Hsweep) with (s := s);
        [ exact (visit_wf _ _ _ _ _ _ _ Hwf Hkey Hv) | exact Hnfc1 | exact Hin
        | by rewrite (visit_other_key _ _ _ _ _ _ _ _ Hwf Hkey Hne Hv)
        | exact Hexp ].
  - injection Hsweep as <- <-.
    destruct (visit_stop_closes _ _ _ _ _ _ Hv) as (p & c & Hc & Hcl & Hc').
    destruct (Hnfc p c _ Hc Hc') as [Hbad _]. simpl in Hbad. congruence.
Qed.

(** A visit that finds the message queue of an open connection full closes
    both queues of the connection, leaves its [open] flag set, and ends the
    sweep: the rest of the order is not visited. *)
Lemma sweep_stops_at_full_queue (key : SessionToken) (rest : list SessionToken)
    (ctx : Session) (p : ClientPtr) (c : Client) (st : State) (n : Counters) :
  sessions st !! key = Some ctx ->
  SessionStore.SessionExpired now ctx = false ->
  Client_ ctx = Some p -> clients st !! p = Some c -> open c = true ->
  closed (send c) = false -> closed (sendToken c) = false ->
  (cap (send c) <= len (send c))%nat ->
  sweep (key :: rest) (st, n)
  = Ok (mkState (<[key := refreshed sessionDuration now ctx]> (sessions st))
          (<[p := force_closed c]> (clients st)),
        mkCounters (expiredSessionCount n) (closedClientCount n)
          (int_add (refreshedClientCount n) 1) (messagesSent n))
  /\ open (force_closed c) = true.
Proof.
  intros Hk Hexp Hp Hc Hopen Hcl Hclt Hlen. split; [|exact Hopen].
  rewrite sweep_cons, Hk.
  by rewrite (visit_intro _ _ _ _ _ _ _ _ _ _
                (VisitFull sessionDuration now message key ctx st n p c
                   Hexp Hp Hc Hopen Hcl Hclt Hlen)).
Qed.

End SweepFacts.

(** ** What registration and unregistration leave alone *)

Section StoreOutsideSweep.
Variable sessionDuration : Z.

Lemma SetClient_sessions (token : SessionToken) (p : ClientPtr) (st st' : State) :
  SessionStore.SetClient token p st = Ok st' ->
  forall k s, sessions st !! k = Some s ->
    exists s', sessions st' !! k = Some s'
               /\ expireTime s' = expireTime s /\ Token s' = Token s.
Proof.
  unfold SessionStore.SetClient.
  destruct (sessions st !! token) as [s0|] eqn:Htok.
  2:{ intros [= <-] k s Hk. eauto. }
  destruct (deref p st) as [c| |]; simpl; try discriminate.
  intros [= <-] k s Hk. simpl.
  destruct (decide (token = k)) as [->|Hne].
  - rewrite lookup_insert_eq. assert (s0 = s) as -> by congruence. eauto.
  - rewrite lookup_insert_ne by done. eauto.
Qed.

Lemma NewSession_sessions (now : Z) (candidates : list SessionToken)
    (m m' : gmap string Session) (t : SessionToken) (err : bool) :
  SessionStore.NewSession sessionDuration now candidates m = (t, err, m') ->
  forall k s, m !! k = Some s -> m' !! k = Some s.
Proof.
  destruct err; intros Hnew k s Hk.
  - by destruct (NewSession_err _ _ _ _ _ _ Hnew) as [_ ->].
  - destruct (NewSession_ok _ _ _ _ _ _ Hnew) as [Hfresh ->].
    rewrite lookup_insert_ne; [exact Hk|]. intros ->. congruence.
Qed.

Lemma register_sessions (now : Z) (candidates : list SessionToken)
    (p : ClientPtr) (st st' : State) :
  register sessionDuration now candidates p st = Ok st' ->
  forall k s, sessions st !! k = Some s ->
    exists s', sessions st' !! k = Some s'
               /\ expireTime s' = expireTime s /\ Token s' = Token s.
Proof.
  unfold register.
  destruct (deref p st) as [c| |]; simpl; try discriminate.
  destruct (chan_recv EmptyString (sendToken c)) as [[[token ok] tq]| |];
    simpl; try discriminate.
  destruct ((token =? "nil")%string || negb (SessionStore.Exists token (sessions st))).
  - destruct (SessionStore.NewSession sessionDuration now candidates (sessions st))
      as [[minted err] m] eqn:Hnew.
    destruct (chan_send minted tq) as [tq'| |]; simpl; try discriminate.
    intros Hset k s Hk.
    eapply SetClient_sessions in Hset; [exact Hset|]. simpl.
    by eapply NewSession_sessions.
  - intros Hset k s Hk. eapply SetClient_sessions in Hset; [exact Hset|]. exact Hk.
Qed.

Lemma unregister_sessions (p : ClientPtr) (st st' : State) :
  unregister p st = Ok st' -> sessions st' = sessions st.
Proof.
  unfold unregister.
  destruct (deref p st) as [c| |]; simpl; try discriminate.
  destruct (open c); [|by intros [= <-]].
  destruct (chan_close (send c)) as [s| |]; simpl; try discriminate.
  destruct (chan_close (sendToken c)) as [t| |]; simpl; try discriminate.
  by intros [= <-].
Qed.

(** An unregister request for a connection that is not marked open
    changes nothing. *)
Lemma unregister_closed_noop (p : ClientPtr) (st : State) (c : Client) :
  clients st !! p = Some c -> open c = false -> unregister p st = Ok st.
Proof. intros Hc Hopen. unfold unregister, deref. by rewrite Hc; simpl; rewrite Hopen. Qed.

End StoreOutsideSweep.

(** C7: the code at a failing input.  The session ["t1"] is unexpired and
    its open connection holds a full send queue; the session ["t2"] has
    lapsed.  A sweep that reaches ["t1"] first closes the queues of its
    connection and ends there: ["t2"] is not reached, stays in the store
    with its lapsed deadline, and the tally of expired sessions is 0; swept
    in the other order, ["t2"] is deleted. *)
Theorem lapsed_session_survives_cut_sweep :
  let before := play sampleTTL lapsedBehindFull emptyState in
  let sweep :=
    broadcastAll sampleTTL 2000 ["t1"; "t2"] ping (state_of before) in
  let other :=
    broadcastAll sampleTTL 2000 ["t2"; "t1"] ping (state_of before) in
  (SessionStore.SessionExpired 2000 <$> session_at "t1" before = Some false
   /\ Full <$> client_at 0 before = Some true
   /\ open <$> client_at 0 before = Some true
   /\ session_at "t2" before = Some (mkSession "t2" (0 + sampleTTL) (Some 1%nat))
   /\ SessionStore.SessionExpired 2000 <$> session_at "t2" before = Some true)
  /\ (session_at "t2" (fst <$> sweep)
        = Some (mkSession "t2" (0 + sampleTTL) (Some 1%nat))
      /\ expiredSessionCount ∘ snd <$> to_option sweep = Some 0
      /\ closed ∘ send <$> client_at 0 (fst <$> sweep) = Some true)
  /\ (session_at "t2" (fst <$> other) = None
      /\ expiredSessionCount ∘ snd <$> to_option other = Some 1).
Proof. vm_compute. repeat split. Qed.

(** X21: a sweep that reaches an expired session deletes it and goes on
    with the rest of its order; one that reaches an unexpired session whose
    connection is not open goes on with the store and the connection as
    they are; a sweep that closes no queue leaves no expired session of its
    order in the store; and the two other turns of the hub, registration
    and unregistration, remove no session. *)
Theorem expired_sessions_swept (sessionDuration now : Z) (message : list byte) :
  (forall key rest ctx st n,
     sessions st !! key = Some ctx ->
     SessionStore.SessionExpired now ctx = true ->
     SessionStore.Range (fun a : State * Counters => sessions (fst a))
       (visit sessionDuration now message) (key :: rest) (st, n)
     = SessionStore.Range (fun a : State * Counters => sessions (fst a))
         (visit sessionDuration now message) rest
         (set_sessions (SessionStore.Delete (Token ctx) (sessions st)) st,
          mkCounters (int_add (expiredSessionCount n) 1) (closedClientCount n)
            (refreshedClientCount n) (messagesSent n)))
  /\ (forall key rest ctx p c st n,
        sessions st !! key = Some ctx ->
        SessionStore.SessionExpired now ctx = false ->
        Client_ ctx = Some p -> clients st !! p = Some c -> open c = false ->
        SessionStore.Range (fun a : State * Counters => sessions (fst a))
          (visit sessionDuration now message) (key :: rest) (st, n)
        = SessionStore.Range (fun a : State * Counters => sessions (fst a))
            (visit sessionDuration now message) rest
            (st,
             mkCounters (expiredSessionCount n) (int_add (closedClientCount n) 1)
               (refreshedClientCount n) (messagesSent n)))
  /\ (forall order st st' n,
        broadcastAll sessionDuration now order message st = Ok (st', n) ->
        store_wf st -> no_forced_close st st' ->
        forall k s, k ∈ order -> sessions st !! k = Some s ->
          SessionStore.SessionExpired now s = true ->
          sessions st' !! k = None)
  /\ (forall ev st st',
        Run_step sessionDuration ev st = Ok st' ->
        (forall t order m, ev <> EvBroadcast t order m) ->
        forall k, is_Some (sessions st !! k) -> is_Some (sessions st' !! k)).
Proof.
  split; [|split; [|split]].
  - intros key rest ctx st n Hk Hexp.
    rewrite sweep_cons, Hk.
    by rewrite (visit_intro _ _ _ _ _ _ _ _ _ _
                  (VisitExpired sessionDuration now message key ctx st n Hexp)).
  - intros key rest ctx p c st n Hk Hexp Hp Hc Hopen.
    rewrite sweep_cons, Hk.
    by rewrite (visit_intro _ _ _ _ _ _ _ _ _ _
                  (VisitClosed sessionDuration now message key ctx st n p c
                     Hexp Hp Hc Hopen)).
  - intros order st st' n Hsweep. unfold broadcastAll in Hsweep.
    exact (sweep_removes_expired sessionDuration now message order
             st st' zeroCounters n Hsweep).
  - intros ev st st' Hstep Hnb k [s Hk].
    destruct ev as [t cands p | p | t order m]; simpl in Hstep.
    + destruct (register_sessions _ _ _ _ _ _ Hstep k s Hk) as (s' & -> & _). eauto.
    + rewrite (unregister_sessions _ _ _ Hstep). eauto.
    + by destruct (Hnb t order m).
Qed.

Lemma no_forced_close_check (st st' : State) :
  map_Forall (fun p c => queues_kept c (clients st' !! p)) (clients st) ->
  no_forced_close st st'.
Proof.
  intros Hall p c c' Hc Hc'. specialize (Hall p c Hc). cbv beta in Hall.
  rewrite Hc' in Hall. exact Hall.
Qed.

Lemma expired_sessions_swept_witness :
  let st := state_of (play sampleTTL threeClients emptyState) in
  let late := 5 + sampleTTL + 1 in
  exists st' n,
    broadcastAll sampleTTL late ["t1"; "t2"; "t3"] ping st = Ok (st', n)
    /\ sessions st' !! "t1" = None
    /\ sessions st' !! "t2" = None
    /\ sessions st' !! "t3" = None
    /\ expiredSessionCount n = 3
    /\ messagesSent n = 0
    /\ send <$> clients st' !! 0%nat = Some (Chan [hello] sendMsgBufferSize false).
Proof.
  intros st late.
  destruct (broadcastAll sampleTTL late ["t1"; "t2"; "t3"] ping st)
    as [[st' n]| |] eqn:Hsweep; try (vm_compute in Hsweep; discriminate).
  destruct (expired_sessions_swept sampleTTL late ping) as (_ & _ & Hgone & _).
  assert (store_wf st) as Hwf.
  { apply (bool_decide_unpack _). vm_compute. exact I. }
  assert (no_forced_close st st') as Hnfc.
  { vm_compute in Hsweep. injection Hsweep as <- <-.
    apply no_forced_close_check, (bool_decide_unpack _). vm_compute. exact I. }
  exists st', n. split; [reflexivity|].
  split; [|split; [|split]].
  - apply (Hgone _ _ _ _ Hsweep Hwf Hnfc "t1" (mkSession "t1" (5 + sampleTTL) (Some 0%nat)));
      [set_solver | reflexivity | reflexivity].
  - apply (Hgone _ _ _ _ Hsweep Hwf Hnfc "t2" (mkSession "t2" (5 + sampleTTL) (Some 1%nat)));
      [set_solver | reflexivity | reflexivity].
  - apply (Hgone _ _ _ _ Hsweep Hwf Hnfc "t3" (mkSession "t3" (5 + sampleTTL) (Some 2%nat)));
      [set_solver | reflexivity | reflexivity].
  - vm_compute in Hsweep. injection Hsweep as <- <-. repeat split.
Defined.

(** ** Deadlines *)

Section Deadlines.
Variable sessionDuration : Z.
Variable now : Z.
Variable message : list byte.

Lemma visit_open (key : SessionToken) (ctx : Session) (st st' : State)
    (n n' : Counters) (b : bool) :
  visit_outcome sessionDuration now message key ctx st n b st' n' ->
  forall p c', clients st' !! p = Some c' ->
    exists c, clients st !! p = Some c /\ open c' = open c.
Proof.
  intros Hv. inversion Hv as [Hexp | q c Hexp Hp Hc Hopen
                             | q c Hexp Hp Hc Hopen Hcl Hlen
                             | q c Hexp Hp Hc Hopen Hcl Hclt Hlen]; subst;
    intros p c' Hc'; simpl in *; eauto;
    (destruct (decide (q = p)) as [->|Hne];
     [ rewrite lookup_insert_eq in Hc'; injection Hc' as <-; eauto
     | rewrite lookup_insert_ne in Hc' by done; eauto ]).
Qed.

Lemma swept_from_refreshed (st0 st : State) (n : Counters) (key : SessionToken)
    (ctx : Session) (p : ClientPtr) (c : Client) :
  swept_from sessionDuration now st0 (st, n) -> sessions st !! key = Some ctx ->
  SessionStore.SessionExpired now ctx = false ->
  Client_ ctx = Some p -> clients st !! p = Some c -> open c = true ->
  exists s, sessions st0 !! key = Some s
    /\ Client_ ctx = Client_ s
    /\ SessionStore.SessionExpired now s = false
    /\ exists p c, Client_ s = Some p /\ clients st0 !! p = Some c /\ open c = true.
Proof.
  intros [Hs Hcl] Hk Hexp Hp Hc Hopen.
  destruct (Hs key ctx Hk) as (s & Hs0 & HC & [Het | (_ & Hexp0 & Hopen0)]).
  - exists s. repeat split; try assumption.
    + unfold SessionStore.SessionExpired in *. by rewrite <- Het.
    + destruct (Hcl p c Hc) as (c0 & Hc0 & Ho).
      exists p, c0. repeat split; congruence.
  - exists s. repeat split; assumption.
Qed.

Lemma swept_from_step (st0 : State) (key : SessionToken) (ctx : Session)
    (st st' : State) (n n' : Counters) (b : bool) :
  swept_from sessionDuration now st0 (st, n) -> sessions st !! key = Some ctx ->
  visit_outcome sessionDuration now message key ctx st n b st' n' ->
  swept_from sessionDuration now st0 (st', n').
Proof.
  intros HI Hk Hv. split.
  2:{ intros p c' Hc'. destruct (visit_open _ _ _ _ _ _ _ Hv p c' Hc') as (c & Hc & Ho).
      destruct HI as [_ Hcl]. destruct (Hcl p c Hc) as (c0 & Hc0 & Ho0).
      exists c0. split; congruence. }
  intros k s' Hk'. simpl in Hk'.
  destruct (visit_store _ _ _ _ _ _ _ _ _ _ Hv)
    as [[Heq _]|[[Heq _]|(Heq & Hexp & p & c & Hp & Hc & Hopen)]];
    rewrite Heq in Hk'.
  - apply lookup_delete_Some in Hk' as [_ Hk']. by apply (proj1 HI).
  - by apply (proj1 HI).
  - destruct (decide (key = k)) as [->|Hne].
    + rewrite lookup_insert_eq in Hk'. injection Hk' as <-.
      destruct (swept_from_refreshed _ _ _ _ _ _ _ HI Hk Hexp Hp Hc Hopen)
        as (s & Hs0 & HC & Hexp0 & Hopen0).
      exists s. simpl. split; [assumption|]. split; [assumption|].
      right. unfold SessionStore.refreshExpiryTime. auto.
    + rewrite lookup_insert_ne in Hk' by done. by apply (proj1 HI).
Qed.

Lemma broadcastAll_swept_from (order : list SessionToken) (st st' : State)
    (n : Counters) :
  broadcastAll sessionDuration now order message st = Ok (st', n) ->
  swept_from sessionDuration now st (st', n).
Proof.
  intros Hsweep. unfold broadcastAll in Hsweep.
  apply (Range_invariant sessionDuration now message (swept_from sessionDuration now st)) in Hsweep;
    [exact Hsweep | | ].
  - intros key ctx st1 n1 b st2 n2. apply swept_from_step.
  - split; simpl; eauto 10.
Qed.

End Deadlines.

Section DeadlinesAlongRun.
Variable sessionDuration : Z.

Lemma SetClient_sessions_inv (token : SessionToken) (p : ClientPtr)
    (st st' : State) :
  SessionStore.SetClient token p st = Ok st' ->
  forall k s', sessions st' !! k = Some s' ->
    exists s, sessions st !! k = Some s /\ expireTime s' = expireTime s.
Proof.
  unfold SessionStore.SetClient.
  destruct (sessions st !! token) as [s0|] eqn:Htok.
  2:{ intros [= <-] k s Hk. eauto. }
  destruct (deref p st) as [c| |]; simpl; try discriminate.
  intros [= <-] k s'. simpl.
  destruct (decide (token = k)) as [->|Hne].
  - rewrite lookup_insert_eq. intros [= <-]. eauto.
  - rewrite lookup_insert_ne by done. eauto.
Qed.

(** A turn of the hub at an instant not before [t] keeps the deadlines
    within one time-to-live of the clock. *)
Lemma Run_step_deadlines_bounded (ev : HubEvent) (st st' : State) (t t' : Z) :
  Run_step sessionDuration ev st = Ok st' ->
  deadlines_bounded sessionDuration t st -> t <= t' ->
  (forall now candidates p, ev = EvRegister now candidates p -> now = t') ->
  (forall now order m, ev = EvBroadcast now order m -> now = t') ->
  deadlines_bounded sessionDuration t' st'.
Proof.
  intros Hstep Hb Hle Hreg Hbc k s' Hk'. cbv beta.
  destruct ev as [now cands p | p | now order m]; simpl in Hstep.
  - specialize (Hreg now cands p eq_refl). subst t'.
    unfold register in Hstep.
    destruct (deref p st) as [c| |]; simpl in Hstep; try discriminate.
    destruct (chan_recv EmptyString (sendToken c)) as [[[token ok] tq]| |];
      simpl in Hstep; try discriminate.
    destruct ((token =? "nil")%string || negb (SessionStore.Exists token (sessions st))).
    + destruct (SessionStore.NewSession sessionDuration now cands (sessions st))
        as [[minted err] m] eqn:Hnew.
      destruct (chan_send minted tq) as [tq'| |]; simpl in Hstep; try discriminate.
      destruct (SetClient_sessions_inv _ _ _ _ Hstep k s' Hk') as (s & Hs & ->).
      simpl in Hs. destruct err.
      * destruct (NewSession_err _ _ _ _ _ _ Hnew) as [_ ->].
        specialize (Hb k s Hs). simpl in Hb. lia.
      * destruct (NewSession_ok _ _ _ _ _ _ Hnew) as [_ ->].
        destruct (decide (minted = k)) as [->|Hne].
        -- rewrite lookup_insert_eq in Hs. injection Hs as <-. simpl. lia.
        -- rewrite lookup_insert_ne in Hs by done.
           specialize (Hb k s Hs). simpl in Hb. lia.
    + destruct (SetClient_sessions_inv _ _ _ _ Hstep k s' Hk') as (s & Hs & ->).
      simpl in Hs. specialize (Hb k s Hs). simpl in Hb. lia.
  - rewrite (unregister_sessions _ _ _ Hstep) in Hk'.
    specialize (Hb k s' Hk'). simpl in Hb. lia.
  - specialize (Hbc now order m eq_refl). subst t'.
    destruct (broadcastAll sessionDuration now order m st) as [[st1 n1]| |] eqn:Hsweep;
      simpl in Hstep; try discriminate. injection Hstep as <-.
    destruct (broadcastAll_swept_from _ _ _ _ _ _ _ Hsweep) as [Hs _].
    destruct (Hs k s' Hk') as (s & Hs0 & _ & [-> | [-> _]]); [|lia].
    specialize (Hb k s Hs0). simpl in Hb. lia.
Qed.

End DeadlinesAlongRun.

(** C2, as stated, fails: a sweep refreshes the deadline before it tries to
    deliver.  The session of the overloaded connection has its deadline
    moved from 1 + TTL to 3 + TTL by a sweep that delivers nothing to it
    and closes its queues. *)
Lemma expireTime_refreshed_by_failed_delivery :
  let before := play sampleTTL slowConsumer emptyState in
  let sweep := st ← before; broadcastAll sampleTTL 3 ["t1"] hello st in
  expireTime <$> session_at "t1" before = Some (1 + sampleTTL)
  /\ Full <$> client_at 0 before = Some true
  /\ messagesSent ∘ snd <$> to_option sweep = Some 0
  /\ refreshedClientCount ∘ snd <$> to_option sweep = Some 1
  /\ expireTime <$> session_at "t1" (fst <$> sweep) = Some (3 + sampleTTL)
  /\ closed ∘ send <$> client_at 0 (fst <$> sweep) = Some true.
Proof. vm_compute. repeat split. Qed.

(** C2, amended: over a turn of the hub, a session that stays in the store
    never has its deadline moved back (the clock not having run backwards),
    and has it moved only by a broadcast sweep, to the refreshed deadline,
    when the session was unexpired and its connection open, that is, when
    the sweep attempted a delivery to it; registration and unregistration
    leave every deadline as it is.  The attempt refreshes the deadline
    whether the message is put on the queue or the queue is full. *)
Theorem expireTime_moves_in_sweep_only (sessionDuration : Z) :
  (forall ev st st',
     Run_step sessionDuration ev st = Ok st' ->
     (forall now order m,
        ev = EvBroadcast now order m -> deadlines_bounded sessionDuration now st) ->
     forall k s s',
       sessions st !! k = Some s -> sessions st' !! k = Some s' ->
       expireTime s <= expireTime s'
       /\ (expireTime s' <> expireTime s ->
           exists now order m p c,
             ev = EvBroadcast now order m
             /\ expireTime s' = SessionStore.refreshExpiryTime sessionDuration now
             /\ SessionStore.SessionExpired now s = false
             /\ Client_ s = Some p /\ clients st !! p = Some c /\ open c = true))
  /\ (forall now message key ctx st n p c,
        SessionStore.SessionExpired now ctx = false ->
        Client_ ctx = Some p -> clients st !! p = Some c -> open c = true ->
        closed (send c) = false -> closed (sendToken c) = false ->
        exists b st' n',
          visit sessionDuration now message key ctx (st, n) = Ok (b, (st', n'))
          /\ sessions st' !! key = Some (refreshed sessionDuration now ctx)
          /\ (b = true <-> (len (send c) < cap (send c))%nat)).
Proof.
  split.
  - intros ev st st' Hstep Hclock k s s' Hk Hk'.
    destruct ev as [t cands p | p | t order m]; simpl in Hstep.
    + destruct (register_sessions _ _ _ _ _ _ Hstep k s Hk) as (s1 & Hs1 & Het & _).
      assert (s1 = s') as -> by congruence. rewrite Het. split; [lia|congruence].
    + rewrite (unregister_sessions _ _ _ Hstep) in Hk'.
      assert (s = s') as -> by congruence. split; [lia|congruence].
    + destruct (broadcastAll sessionDuration t order m st) as [[st1 n1]| |] eqn:Hsweep;
        simpl in Hstep; try discriminate. injection Hstep as <-.
      destruct (broadcastAll_swept_from _ _ _ _ _ _ _ Hsweep) as [Hs _].
      destruct (Hs k s' Hk') as (s0 & Hs0 & _ & Hcase). simpl in Hs0.
      assert (s0 = s) as -> by congruence.
      destruct Hcase as [Het | (Het & Hexp & q & c & Hq & Hc & Hopen)].
      * rewrite Het. split; [lia|congruence].
      * split.
        -- rewrite Het. exact (Hclock t order m eq_refl k s Hk).
        -- intros _. exists t, order, m, q, c. repeat split; assumption.
  - intros now message key ctx st n p c Hexp Hp Hc Hopen Hcl Hclt.
    destruct (decide (len (send c) < cap (send c))%nat) as [Hlt|Hge].
    + eexists true, _, _. split.
      * apply visit_intro.
        exact (VisitSent sessionDuration now message key ctx st n p c
                 Hexp Hp Hc Hopen Hcl Hlt).
      * split; [apply lookup_insert_eq | done].
    + eexists false, _, _. split.
      * apply visit_intro.
        apply (VisitFull sessionDuration now message key ctx st n p c
                 Hexp Hp Hc Hopen Hcl Hclt). lia.
      * split; [apply lookup_insert_eq | split; [discriminate | done]].
Qed.

Lemma expireTime_moves_in_sweep_only_witness :
  let st := state_of (play sampleTTL slowConsumer emptyState) in
  exists st',
    Run_step sampleTTL (EvBroadcast 3 ["t1"] hello) st = Ok st'
    /\ expireTime <$> sessions st !! "t1" = Some (1 + sampleTTL)
    /\ expireTime <$> sessions st' !! "t1" = Some (3 + sampleTTL)
    /\ 1 + sampleTTL <= 3 + sampleTTL.
Proof.
  intros st.
  destruct (Run_step sampleTTL (EvBroadcast 3 ["t1"] hello) st) as [st'| |] eqn:Hstep;
    try (vm_compute in Hstep; discriminate).
  exists st'. split; [reflexivity|].
  assert (sessions st !! "t1" = Some (mkSession "t1" (1 + sampleTTL) (Some 0%nat)))
    as Hk by (vm_compute; reflexivity).
  assert (sessions st' !! "t1" = Some (mkSession "t1" (3 + sampleTTL) (Some 0%nat)))
    as Hk'.
  { vm_compute in Hstep. injection Hstep as <-. vm_compute. reflexivity. }
  rewrite Hk, Hk'. do 2 (split; [reflexivity|]).
  destruct (expireTime_moves_in_sweep_only sampleTTL) as [Hmove _].
  refine (proj1 (Hmove _ st st' Hstep _ "t1" _ _ Hk Hk')).
  intros now order m [= <- _ _].
  apply (bool_decide_unpack _). vm_compute. exact I.
Defined.

(** ** Delivery to every ready session *)

Section Delivery.
Variable sessionDuration : Z.
Variable now : Z.
Variable message : list byte.

Lemma int_add_small (a b : Z) :
  - 2 ^ 63 <= a + b < 2 ^ 63 -> int_add a b = a + b.
Proof.
  intros H. unfold int_add, int_wrap.
  rewrite Z.mod_small; lia.
Qed.

Lemma bound_client_insert_ne (st : State) (k k0 : SessionToken) (s : Session)
    (cl : gmap nat Client) :
  k0 <> k ->
  bound_client (mkState (<[k0 := s]> (sessions st)) cl) k = bound_client st k.
Proof. intros Hne. unfold bound_client. simpl. by rewrite lookup_insert_ne. Qed.

Lemma sweep_delivers (order : list SessionToken) :
  forall st n,
    distinct_clients st order ->
    Forall (deliverable now st) order ->
    0 <= refreshedClientCount n -> 0 <= messagesSent n ->
    refreshedClientCount n + Z.of_nat (List.length order) < 2 ^ 63 ->
    messagesSent n + Z.of_nat (List.length order) < 2 ^ 63 ->
    exists st',
      SessionStore.Range (fun a : State * Counters => sessions (fst a))
        (visit sessionDuration now message) order (st, n)
      = Ok (st',
            mkCounters (expiredSessionCount n) (closedClientCount n)
              (refreshedClientCount n + Z.of_nat (List.length order))
              (messagesSent n + Z.of_nat (List.length order)))
      /\ (forall k s, k ∈ order -> sessions st !! k = Some s ->
            sessions st' !! k = Some (refreshed sessionDuration now s))
      /\ (forall k, k ∉ order -> sessions st' !! k = sessions st !! k)
      /\ (forall k p c, k ∈ order -> bound_client st k = Some p ->
            clients st !! p = Some c ->
            clients st' !! p = Some (enqueued message c))
      /\ (forall p, (forall k, k ∈ order -> bound_client st k <> Some p) ->
            clients st' !! p = clients st !! p).
Proof.
  induction order as [|k0 rest IH]; intros st n Hdist Hall Hr0 Hs0 Hr Hs.
  { exists st. simpl. rewrite !Z.add_0_r. destruct n.
    repeat split; try done; intros; by rewrite ?elem_of_nil in *. }
  apply Forall_cons in Hall as [(s0 & p0 & c0 & Hk0 & Hexp & Hp0 & Hc0 & Hopen & Hcl & Hlen) Hall].
  unfold distinct_clients in Hdist. rewrite fmap_cons in Hdist.
  apply NoDup_cons in Hdist as [Hnotin Hdist].
  assert (bound_client st k0 = Some p0) as Hb0.
  { unfold bound_client. rewrite Hk0. exact Hp0. }
  rewrite Hb0 in Hnotin.
  assert (forall k, k ∈ rest -> bound_client st k <> Some p0) as Hother.
  { intros k Hin Hb. apply Hnotin. rewrite <- Hb. by apply list_elem_of_fmap_2. }
  assert (forall k, k ∈ rest -> k0 <> k) as Hne.
  { intros k Hin <-. by apply (Hother k0 Hin). }
  set (st1 := mkState (<[k0 := refreshed sessionDuration now s0]> (sessions st))
                (<[p0 := enqueued message c0]> (clients st))).
  set (n1 := mkCounters (expiredSessionCount n) (closedClientCount n)
               (int_add (refreshedClientCount n) 1) (int_add (messagesSent n) 1)).
  assert (visit sessionDuration now message k0 s0 (st, n) = Ok (true, (st1, n1))) as Hv.
  { apply visit_intro.
    exact (VisitSent sessionDuration now message k0 s0 st n p0 c0
             Hexp Hp0 Hc0 Hopen Hcl Hlen). }
  assert (forall k, k ∈ rest -> bound_client st1 k = bound_client st k) as Hb1.
  { intros k Hin. apply bound_client_insert_ne. by apply Hne. }
  rewrite length_cons, Nat2Z.inj_succ in Hr, Hs.
  destruct (IH st1 n1) as (st' & Hsweep & Hsess & Hkeep & Hcli & Hrest).
  - unfold distinct_clients.
    rewrite (list_fmap_ext (bound_client st1) (bound_client st) rest); [exact Hdist|].
    intros i k Hik. apply Hb1. by eapply list_elem_of_lookup_2.
  - apply Forall_forall. intros k Hin.
    rewrite Forall_forall in Hall.
    destruct (Hall k Hin) as (s & p & c & Hk & Hexp' & Hp & Hc & Hopen' & Hcl' & Hlen').
    exists s, p, c. repeat split; try assumption.
    + simpl. rewrite lookup_insert_ne; [exact Hk | by apply Hne].
    + simpl. rewrite lookup_insert_ne; [exact Hc|].
      intros <-. apply (Hother k Hin). unfold bound_client. by rewrite Hk.
  - simpl. rewrite int_add_small; lia.
  - simpl. rewrite int_add_small; lia.
  - simpl. rewrite int_add_small; lia.
  - simpl. rewrite int_add_small; lia.
  - exists st'. split; [|split; [|split; [|split]]].
    + rewrite sweep_cons, Hk0, Hv. simpl. rewrite Hsweep. simpl.
      rewrite !int_add_small by lia.
      do 3 f_equal; lia.
    + intros k s [->|Hin]%elem_of_cons Hk.
      * assert (s = s0) as -> by congruence.
        destruct (decide (k0 ∈ rest)) as [Hin|Hnin].
        -- by destruct (Hne k0 Hin).
        -- rewrite (Hkeep k0 Hnin). simpl. apply lookup_insert_eq.
      * apply Hsess; [exact Hin|]. simpl.
        rewrite lookup_insert_ne; [exact Hk | by apply Hne].
    + intros k Hnin. apply not_elem_of_cons in Hnin as [Hk Hnin].
      rewrite (Hkeep k Hnin). simpl. by rewrite lookup_insert_ne.
    + intros k p c [->|Hin]%elem_of_cons Hb Hc.
      * assert (p = p0) as -> by congruence.
        assert (c = c0) as -> by congruence.
        rewrite Hrest; [simpl; apply lookup_insert_eq|].
        intros k Hin. rewrite (Hb1 k Hin). by apply Hother.
      * apply (Hcli k p c Hin); [by rewrite Hb1|].
        simpl. rewrite lookup_insert_ne; [exact Hc|].
        intros <-. by apply (Hother k Hin).
    + intros p Hfree.
      rewrite Hrest.
      * simpl. rewrite lookup_insert_ne; [reflexivity|].
        intros <-. apply (Hfree k0); [by left | exact Hb0].
      * intros k Hin. rewrite (Hb1 k Hin). apply Hfree. by right.
Qed.

End Delivery.

(** C8: when the store holds exactly the K sessions of the sweep order, all
    unexpired and bound to K different connections that are open, with
    their message queues open and under capacity, one broadcast puts the
    message at the end of the queue of each of the K connections (the tally
    of messages sent is K), closes no queue, and removes no session. *)
Theorem broadcast_delivers_to_all_ready (sessionDuration now : Z)
    (message : list byte) (order : list SessionToken) (st : State) :
  list_to_set order = dom (sessions st) ->
  distinct_clients st order ->
  Forall (deliverable now st) order ->
  Z.of_nat (List.length order) < 2 ^ 63 ->
  size (sessions st) = List.length order
  /\ exists st' n,
       broadcastAll sessionDuration now order message st = Ok (st', n)
       /\ messagesSent n = Z.of_nat (List.length order)
       /\ refreshedClientCount n = Z.of_nat (List.length order)
       /\ expiredSessionCount n = 0
       /\ closedClientCount n = 0
       /\ (forall k p c, k ∈ order -> bound_client st k = Some p ->
             clients st !! p = Some c ->
             clients st' !! p = Some (enqueued message c))
       /\ (forall k s, sessions st !! k = Some s ->
             sessions st' !! k = Some (refreshed sessionDuration now s))
       /\ no_forced_close st st'.
Proof.
  intros Hsnap Hdist Hall Hbound.
  assert (NoDup order) as Hnodup by (eapply NoDup_fmap_1; exact Hdist).
  split.
  { rewrite <- size_dom, <- Hsnap. by apply size_list_to_set. }
  destruct (sweep_delivers sessionDuration now message order st zeroCounters
              Hdist Hall) as (st' & Hsweep & Hsess & Hkeep & Hcli & Hrest);
    simpl; try lia.
  exists st', (mkCounters 0 0 (Z.of_nat (List.length order))
                 (Z.of_nat (List.length order))).
  split; [exact Hsweep|]. do 4 (split; [reflexivity|]).
  split; [exact Hcli|]. split.
  - intros k s Hk. apply Hsess; [|exact Hk].
    apply elem_of_dom_2 in Hk. rewrite <- Hsnap in Hk.
    by apply elem_of_list_to_set in Hk.
  - intros p c c' Hc Hc'.
    destruct (decide (Some p ∈ bound_client st <$> order)) as [Hin|Hnin].
    + apply list_elem_of_fmap in Hin as (k & Hb & Hin).
      rewrite (Hcli k p c Hin (eq_sym Hb) Hc) in Hc'. injection Hc' as <-.
      rewrite Forall_forall in Hall.
      destruct (Hall k Hin) as (s & q & c0 & Hk & _ & Hq & Hc0 & _ & Hcl & _).
      assert (q = p) as ->.
      { unfold bound_client in Hb. rewrite Hk in Hb. simpl in Hb. congruence. }
      assert (c0 = c) as -> by congruence.
      simpl. by rewrite Hcl.
    + rewrite Hrest in Hc'.
      * assert (c' = c) as -> by congruence. done.
      * intros k Hin Hb. apply Hnin. rewrite <- Hb. by apply list_elem_of_fmap_2.
Qed.

Lemma broadcast_delivers_to_all_ready_witness :
  let st := state_of (play sampleTTL threeRegistered emptyState) in
  size (sessions st) = 3%nat
  /\ exists st' n,
       broadcastAll sampleTTL 5 ["t1"; "t2"; "t3"] hello st = Ok (st', n)
       /\ messagesSent n = 3
       /\ send <$> clients st' !! 0%nat = Some (Chan [hello] sendMsgBufferSize false)
       /\ send <$> clients st' !! 1%nat = Some (Chan [hello] sendMsgBufferSize false)
       /\ send <$> clients st' !! 2%nat = Some (Chan [hello] sendMsgBufferSize false)
       /\ no_forced_close st st'.
Proof.
  intros st.
  assert (forall k p, k ∈ ["t1"; "t2"; "t3"] -> bound_client st k = Some p ->
          exists c, clients st !! p = Some c
                    /\ send c = Chan [] sendMsgBufferSize false
                    /\ open c = true) as Hfresh.
  { intros k p Hin Hb.
    repeat (apply elem_of_cons in Hin as [->|Hin]);
      [| | | by apply elem_of_nil in Hin];
      vm_compute in Hb; injection Hb as <-; eexists; repeat split. }
  destruct (broadcast_delivers_to_all_ready sampleTTL 5 hello ["t1"; "t2"; "t3"] st)
    as (Hsize & st' & n & Hsweep & Hsent & _ & _ & _ & Hcli & _ & Hnfc).
  - apply (bool_decide_unpack _). vm_compute. exact I.
  - apply (bool_decide_unpack _). vm_compute. exact I.
  - apply Forall_forall. intros k Hin.
    repeat (apply elem_of_cons in Hin as [->|Hin]);
      [| | | by apply elem_of_nil in Hin];
      (eexists _, _, _;
       split; [vm_compute; reflexivity|];
       split; [reflexivity|];
       split; [reflexivity|];
       split; [vm_compute; reflexivity|];
       split; [reflexivity|];
       split; [reflexivity|]; vm_compute; lia).
  - simpl. lia.
  - split; [exact Hsize|]. exists st', n.
    split; [exact Hsweep|]. split; [exact Hsent|].
    split; [|split; [|split; [|exact Hnfc]]].
    + destruct (Hfresh "t1" 0%nat) as (c & Hc & Hs & _); [set_solver|reflexivity|].
      rewrite (Hcli "t1" 0%nat c) by (set_solver || done). simpl. by rewrite Hs.
    + destruct (Hfresh "t2" 1%nat) as (c & Hc & Hs & _); [set_solver|reflexivity|].
      rewrite (Hcli "t2" 1%nat c) by (set_solver || done). simpl. by rewrite Hs.
    + destruct (Hfresh "t3" 2%nat) as (c & Hc & Hs & _); [set_solver|reflexivity|].
      rewrite (Hcli "t3" 2%nat c) by (set_solver || done). simpl. by rewrite Hs.
Defined.

(** ** The token handshake *)

Section Handshake.
Variable sessionDuration : Z.

Lemma text_frames_write (f : Frame) (c : Client) :
  text_frames (conn_write f c)
  = text_frames c ++ (if is_text f then [f] else []).
Proof.
  unfold text_frames, conn_write. destruct c as [? ? ? [w cl] ? ?]; simpl.
  rewrite filter_app. f_equal. destruct f; reflexivity.
Qed.

Lemma text_frames_exit (c : Client) : text_frames (pump_exit c) = text_frames c.
Proof. destruct c as [? ? ? [w cl] ? ?]; reflexivity. Qed.

Lemma token_pending_exit (t : SessionToken) (c : Client) :
  token_pending t c -> token_pending t (pump_exit c).
Proof.
  unfold token_pending. rewrite text_frames_exit.
  destruct c as [? ? ? [w cl] ? ?]; simpl. tauto.
Qed.

(** A turn of the pump keeps the connection in that state: the message
    case is not ready, and the token case writes the token or nothing. *)
Lemma writePump_iter_pending (t : SessionToken) (ev : PumpEvent) (c c' : Client)
    (status : PumpStatus) :
  token_pending t c -> writePump_iter ev c = Ok (status, c') ->
  token_pending t c'.
Proof.
  intros (Hsend & Hcl & Hclt & Htok) Hiter.
  destruct ev as [nw ce | nw ce | we]; simpl in Hiter.
  - unfold chan_recv in Hiter. rewrite Hsend, Hcl in Hiter. discriminate.
  - unfold chan_recv in Hiter.
    destruct Htok as [[Hq Htxt] | [Hq Htxt]]; rewrite Hq in Hiter;
      [|rewrite Hclt in Hiter; discriminate].
    simpl in Hiter. destruct nw.
    + injection Hiter as <- <-. apply token_pending_exit.
      unfold token_pending. destruct c as [? ? ? [w cl] ? ?]; simpl in *.
      repeat split; try assumption. right. split; [reflexivity|]. by left.
    + simpl in Hiter. destruct ce.
      * injection Hiter as <- <-. apply token_pending_exit.
        unfold token_pending. destruct c as [? ? ? [w cl] ? ?]; simpl in *.
        repeat split; try assumption. right. split; [reflexivity|]. by left.
      * injection Hiter as <- <-.
        unfold token_pending. rewrite text_frames_write. simpl.
        assert (text_frames
                  (set_sendToken (Chan [] (cap (sendToken c)) (closed (sendToken c)))
                     (set_sendToken (Chan [] (cap (sendToken c)) (closed (sendToken c))) c))
                = text_frames c) as -> by (destruct c; reflexivity).
        rewrite Htxt. destruct c as [? ? ? [w cl] ? ?]; simpl in *.
        repeat split; try assumption. right. split; [reflexivity|]. by right.
  - destruct we.
    + injection Hiter as <- <-. apply token_pending_exit.
      unfold token_pending. tauto.
    + injection Hiter as <- <-. unfold token_pending.
      rewrite text_frames_write. simpl. rewrite app_nil_r.
      destruct c as [? ? ? [w cl] ? ?]; simpl in *. tauto.
Qed.

Lemma writePump_pending (t : SessionToken) (evs : list PumpEvent) :
  forall c c' status,
    token_pending t c -> writePump evs c = Ok (status, c') -> token_pending t c'.
Proof.
  induction evs as [|ev rest IH]; intros c c' status Hpend; simpl.
  - by intros [= <- <-].
  - destruct (writePump_iter ev c) as [[s1 c1]| |] eqn:Hiter; simpl; try discriminate.
    pose proof (writePump_iter_pending _ _ _ _ _ Hpend Hiter) as H1.
    destruct s1; [by apply IH | by intros [= <- <-]].
Qed.

(** A sweep leaves alone a connection that no session points to. *)
Lemma broadcastAll_unbound (now : Z) (order : list SessionToken)
    (message : list byte) (p : ClientPtr) (st st' : State) (n : Counters) :
  (forall k s, sessions st !! k = Some s -> Client_ s <> Some p) ->
  broadcastAll sessionDuration now order message st = Ok (st', n) ->
  clients st' !! p = clients st !! p.
Proof.
  intros Hfree Hsweep. unfold broadcastAll in Hsweep.
  apply (Range_invariant sessionDuration now message
           (fun acc => (forall k s, sessions acc.1 !! k = Some s -> Client_ s <> Some p)
                       /\ clients acc.1 !! p = clients st !! p)) in Hsweep;
    [exact (proj2 Hsweep) | | by split].
  intros key ctx st1 n1 b st2 n2 [Hf Hc] Hk Hv. simpl in *.
  pose proof (Hf key ctx Hk) as Hctx.
  inversion Hv as [Hexp | q c Hexp Hq Hcq Hopen
                  | q c Hexp Hq Hcq Hopen Hcl Hlen
                  | q c Hexp Hq Hcq Hopen Hcl Hclt Hlen]; subst; simpl.
  - split; [|exact Hc]. intros k s [_ Hs]%lookup_delete_Some. by apply (Hf k s).
  - by split.
  - split.
    + intros k s. destruct (decide (key = k)) as [->|Hne].
      * rewrite lookup_insert_eq. intros [= <-]. exact Hctx.
      * rewrite lookup_insert_ne by done. apply Hf.
    + rewrite lookup_insert_ne; [exact Hc | congruence].
  - split.
    + intros k s. destruct (decide (key = k)) as [->|Hne].
      * rewrite lookup_insert_eq. intros [= <-]. exact Hctx.
      * rewrite lookup_insert_ne by done. apply Hf.
    + rewrite lookup_insert_ne; [exact Hc | congruence].
Qed.

End Handshake.

(** C6, as stated, fails: the token is on the token queue when
    registration ends, but a broadcast may reach the connection before its
    write pump takes its first turn, and the select of the pump may then
    pick the message queue first.  The wire then carries the data frame
    ahead of the token frame. *)
Lemma data_frame_ahead_of_token_frame :
  let run :=
    play sampleTTL
      [Accept "nil"; Hub (EvRegister 0 ["t1"] 0%nat);
       Hub (EvBroadcast 1 ["t1"] hello);
       Pump 0%nat [OnSend false false; OnToken false false]]
      emptyState in
  written ∘ conn <$> client_at 0 run
  = Some [TextMessage hello; TextMessage (String.list_byte_of_string "t1")].
Proof. vm_compute. reflexivity. Qed.

(** C6, amended: for a connection that [serveWs] hands over with a token
    that is ["nil"] or unknown, no sweep reaches the connection before its
    registration; registration puts the minted token on the token queue
    while the message queue is still empty and nothing is on the wire, and
    only then binds the session and releases the pumps; and a write pump
    that runs before a broadcast reaches the connection writes no text
    frame other than the token frame.  (Once both queues hold data the
    pump may serve either first.) *)
Theorem token_queued_before_data (sessionDuration now : Z)
    (candidates : list SessionToken) (st st1 : State)
    (token minted : SessionToken) (p : ClientPtr) :
  heap_wf st ->
  serveWs token st = Ok (p, st1) ->
  token = "nil" \/ sessions st !! token = None ->
  SessionStore.freshToken candidates (sessions st) = Some minted ->
  (forall t order m st' n,
     broadcastAll sessionDuration t order m st1 = Ok (st', n) ->
     clients st' !! p = clients st1 !! p)
  /\ exists st2 c,
       register sessionDuration now candidates p st1 = Ok st2
       /\ clients st2 !! p = Some c
       /\ sendToken c = Chan [minted] sendTokenBufferSize false
       /\ send c = Chan [] sendMsgBufferSize false
       /\ written (conn c) = []
       /\ closed (start c) = true
       /\ bound_client st2 minted = Some p
       /\ forall evs st3,
            run_writePump p evs st2 = Ok st3 ->
            exists c3,
              clients st3 !! p = Some c3
              /\ (text_frames c3 = []
                  \/ text_frames c3
                     = [TextMessage (String.list_byte_of_string minted)]).
Proof.
  intros Hwf Hserve Htok Hfresh.
  unfold serveWs in Hserve. simpl in Hserve. injection Hserve as <- <-.
  set (p := fresh (dom (clients st))).
  assert (clients st !! p = None) as Hp.
  { apply not_elem_of_dom. apply is_fresh. }
  split.
  - intros t order m st' n Hsweep.
    apply (broadcastAll_unbound sessionDuration t order m p _ st' n); [|exact Hsweep].
    intros k s Hk Hs. simpl in Hk.
    specialize (Hwf k s Hk). unfold points_into_heap in Hwf.
    rewrite Hs, Hp in Hwf. by destruct Hwf.
  - set (c0 := set_sendToken (Chan [token] sendTokenBufferSize false) newClient).
    set (st1 := set_client p c0 st).
    assert (clients st1 !! p = Some c0) as Hc0 by apply lookup_insert_eq.
    assert (SessionStore.NewSession sessionDuration now candidates (sessions st1)
            = (minted, false,
               <[minted := mkSession minted
                             (SessionStore.refreshExpiryTime sessionDuration now) None]>
                 (sessions st1))) as Hnew.
    { unfold SessionStore.NewSession. simpl. by rewrite Hfresh. }
    rewrite (register_mint sessionDuration now candidates p st1 c0 token minted false _
               Hc0 eq_refl Htok Hnew).
    erewrite SetClient_bound;
      [| simpl; apply lookup_insert_eq | simpl; apply lookup_insert_eq].
    eexists _, _. split; [reflexivity|]. simpl.
    split; [apply lookup_insert_eq|]. do 4 (split; [reflexivity|]).
    split.
    { unfold bound_client. simpl. by rewrite lookup_insert_eq. }
    intros evs st3 Hrun. unfold run_writePump, deref in Hrun. simpl in Hrun.
    rewrite lookup_insert_eq in Hrun. simpl in Hrun.
    match type of Hrun with
    | context [writePump evs ?c] =>
        destruct (writePump evs c) as [[status c3]| |] eqn:Hpump;
          simpl in Hrun; try discriminate;
          assert (token_pending minted c) as Hpend
            by (unfold token_pending; simpl; repeat split; left; done)
    end.
    injection Hrun as <-. exists c3. simpl.
    split; [apply lookup_insert_eq|].
    destruct (writePump_pending _ _ _ _ _ Hpend Hpump) as (_ & _ & _ & [[_ H]|[_ H]]);
      [by left | exact H].
Qed.

Lemma token_queued_before_data_witness :
  exists st2 c,
    register sampleTTL 7 ["t1"; "t2"] 1%nat acceptedSecond = Ok st2
    /\ clients st2 !! 1%nat = Some c
    /\ sendToken c = Chan ["t2"] sendTokenBufferSize false
    /\ send c = Chan [] sendMsgBufferSize false
    /\ bound_client st2 "t2" = Some 1%nat.
Proof.
  destruct (token_queued_before_data sampleTTL 7 ["t1"; "t2"] registeredOne
              acceptedSecond "nil" "t2" 1%nat)
    as (_ & st2 & c & Hreg & Hc & Htq & Hsend & _ & _ & Hb & _).
  - apply (bool_decide_unpack _). vm_compute. exact I.
  - vm_compute. reflexivity.
  - by left.
  - vm_compute. reflexivity.
  - exists st2, c. repeat split; assumption.
Defined.

(** ** Every state of a run is well formed *)

Section Reachable.
Variable sessionDuration : Z.

Lemma points_into_heap_mono (st st' : State) (s : Session) :
  (forall q, is_Some (clients st !! q) -> is_Some (clients st' !! q)) ->
  points_into_heap st s -> points_into_heap st' s.
Proof.
  unfold points_into_heap. intros Hmono. destruct (Client_ s); [apply Hmono|done].
Qed.

Lemma set_client_wf (p : ClientPtr) (c : Client) (st : State) :
  well_formed st -> well_formed (set_client p c st).
Proof.
  intros [Hs Hh]. split; [exact Hs|].
  intros k s Hk. apply (points_into_heap_mono st); [|exact (Hh k s Hk)].
  intros q Hq. simpl. apply lookup_insert_is_Some'. by right.
Qed.

Lemma SetClient_wf (token : SessionToken) (p : ClientPtr) (st st' : State) :
  SessionStore.SetClient token p st = Ok st' -> well_formed st -> well_formed st'.
Proof.
  unfold SessionStore.SetClient.
  destruct (sessions st !! token) as [s0|] eqn:Htok; [|by intros [= <-]].
  unfold deref. destruct (clients st !! p) as [c|] eqn:Hc; simpl; [|discriminate].
  intros [= <-] [Hs Hh]. split.
  - intros k s. simpl. destruct (decide (token = k)) as [->|Hne].
    + rewrite lookup_insert_eq. intros [= <-]. simpl. by apply Hs.
    + rewrite lookup_insert_ne by done. apply Hs.
  - intros k s. simpl. destruct (decide (token = k)) as [->|Hne].
    + rewrite lookup_insert_eq. intros [= <-]. unfold points_into_heap. simpl.
      rewrite lookup_insert_eq. eauto.
    + rewrite lookup_insert_ne by done. intros Hk.
      apply (points_into_heap_mono st); [|exact (Hh k s Hk)].
      intros q Hq. simpl. apply lookup_insert_is_Some'. by right.
Qed.

Lemma register_wf (now : Z) (candidates : list SessionToken) (p : ClientPtr)
    (st st' : State) :
  register sessionDuration now candidates p st = Ok st' ->
  well_formed st -> well_formed st'.
Proof.
  unfold register.
  destruct (deref p st) as [c| |]; simpl; try discriminate.
  destruct (chan_recv EmptyString (sendToken c)) as [[[token ok] tq]| |];
    simpl; try discriminate.
  destruct ((token =? "nil")%string || negb (SessionStore.Exists token (sessions st))).
  - destruct (SessionStore.NewSession sessionDuration now candidates (sessions st))
      as [[minted err] m] eqn:Hnew.
    destruct (chan_send minted tq) as [tq'| |]; simpl; try discriminate.
    intros Hset Hwf. eapply SetClient_wf; [exact Hset|].
    apply set_client_wf. destruct Hwf as [Hs Hh]. destruct err.
    + destruct (NewSession_err _ _ _ _ _ _ Hnew) as [_ ->]. by split.
    + destruct (NewSession_ok _ _ _ _ _ _ Hnew) as [_ ->]. split.
      * intros k s. simpl. destruct (decide (minted = k)) as [->|Hne].
        -- rewrite lookup_insert_eq. by intros [= <-].
        -- rewrite lookup_insert_ne by done. apply Hs.
      * intros k s. simpl. destruct (decide (minted = k)) as [->|Hne].
        -- rewrite lookup_insert_eq. by intros [= <-].
        -- rewrite lookup_insert_ne by done. intros Hk. exact (Hh k s Hk).
  - intros Hset Hwf. eapply SetClient_wf; [exact Hset|]. by apply set_client_wf.
Qed.

Lemma unregister_wf (p : ClientPtr) (st st' : State) :
  unregister p st = Ok st' -> well_formed st -> well_formed st'.
Proof.
  unfold unregister.
  destruct (deref p st) as [c| |]; simpl; try discriminate.
  destruct (open c); [|by intros [= <-]].
  destruct (chan_close (send c)) as [s| |]; simpl; try discriminate.
  destruct (chan_close (sendToken c)) as [t| |]; simpl; try discriminate.
  intros [= <-]. apply set_client_wf.
Qed.

Lemma visit_well_formed (now : Z) (message : list byte) (key : SessionToken)
    (ctx : Session) (st st' : State) (n n' : Counters) (b : bool) :
  well_formed st -> sessions st !! key = Some ctx ->
  visit_outcome sessionDuration now message key ctx st n b st' n' ->
  well_formed st'.
Proof.
  intros [Hs Hh] Hk Hv. split; [by eapply visit_wf|].
  assert (forall q c, well_formed
            (mkState (<[key := refreshed sessionDuration now ctx]> (sessions st))
               (<[q := c]> (clients st)))) as Hins.
  { intros q c.
    change (well_formed
              (set_client q c
                 (mkState (<[key := refreshed sessionDuration now ctx]> (sessions st))
                    (clients st)))).
    apply set_client_wf. split.
    - intros k s. simpl. destruct (decide (key = k)) as [->|Hne].
      + rewrite lookup_insert_eq. intros [= <-]. simpl. by apply Hs.
      + rewrite lookup_insert_ne by done. apply Hs.
    - intros k s. simpl. destruct (decide (key = k)) as [->|Hne].
      + rewrite lookup_insert_eq. intros [= <-]. exact (Hh k ctx Hk).
      + rewrite lookup_insert_ne by done. intros Hks. exact (Hh k s Hks). }
  inversion Hv; subst.
  - intros k s Hks. simpl in Hks.
    apply lookup_delete_Some in Hks as [_ Hks]. exact (Hh k s Hks).
  - exact Hh.
  - apply Hins.
  - apply Hins.
Qed.

Lemma broadcastAll_wf (now : Z) (order : list SessionToken) (message : list byte)
    (st st' : State) (n : Counters) :
  broadcastAll sessionDuration now order message st = Ok (st', n) ->
  well_formed st -> well_formed st'.
Proof.
  intros Hsweep Hwf. unfold broadcastAll in Hsweep.
  apply (Range_invariant sessionDuration now message
           (fun acc => well_formed acc.1)) in Hsweep; [exact Hsweep| |exact Hwf].
  intros key ctx st1 n1 b st2 n2. apply visit_well_formed.
Qed.

Lemma act_wf (a : Action) (st st' : State) :
  act sessionDuration a st = Ok st' -> well_formed st -> well_formed st'.
Proof.
  destruct a as [token | ev | p evs]; simpl.
  - intros [= <-]. apply set_client_wf.
  - destruct ev as [now cands p | p | now order m]; simpl.
    + apply register_wf.
    + apply unregister_wf.
    + destruct (broadcastAll sessionDuration now order m st) as [[st1 n1]| |] eqn:Hsweep;
        simpl; try discriminate.
      intros [= <-]. by eapply broadcastAll_wf.
  - unfold run_writePump.
    destruct (deref p st) as [c| |]; simpl; try discriminate.
    destruct (chan_recv () (start c)) as [[[u ok] ch]| |]; simpl; try discriminate.
    destruct (writePump evs c) as [[status c']| |]; simpl; try discriminate.
    intros [= <-]. apply set_client_wf.
Qed.

(** Whatever connections are accepted and whatever the hub and the pumps
    do, every session stays filed under its own token and points to a
    connection of the heap. *)
Lemma play_wf (acts : list Action) :
  forall st st',
    play sessionDuration acts st = Ok st' -> well_formed st -> well_formed st'.
Proof.
  induction acts as [|a rest IH]; intros st st'; simpl.
  - by intros [= <-].
  - destruct (act sessionDuration a st) as [st1| |] eqn:Hact; simpl; try discriminate.
    intros Hplay Hwf. eapply IH; [exact Hplay|]. by eapply act_wf.
Qed.

Lemma emptyState_wf : well_formed emptyState.
Proof. split; intros k s; simpl; by rewrite lookup_empty. Qed.

End Reachable.

(** * Further properties *)

(** ** The open-streams registry: lookups, round trips, the counter *)

Section RegistryFacts.
Context {AppController : Type}.
Implicit Types osl : OpenStreamsList.t AppController.

Lemma int_sub_small (a b : Z) :
  - 2 ^ 63 <= a - b < 2 ^ 63 -> int_sub a b = a - b.
Proof.
  intros H. unfold int_sub, int_wrap.
  rewrite Z.mod_small; lia.
Qed.

End RegistryFacts.

(** Evaluates the middle of a range goal on a sample, then compares. *)
Ltac range_by_eval :=
  match goal with
  | |- _ <= ?x < _ => let v := eval vm_compute in x in change x with v; lia
  | |- ?x < _ => let v := eval vm_compute in x in change x with v; lia
  end.

(** X1: a token that was added is found, by [Exists] and by [Get], with
    the controller it was added with (the last one, when it was added
    before); every other token is found or missing as before. *)
Theorem Add_then_Get (AppController : Type) (osl : OpenStreamsList.t AppController)
    (token other : SessionToken) (ac : AppController) :
  OpenStreamsList.Exists token (OpenStreamsList.Add token ac osl) = true
  /\ OpenStreamsList.Get token (OpenStreamsList.Add token ac osl) = Some ac
  /\ (other <> token ->
      OpenStreamsList.Get other (OpenStreamsList.Add token ac osl)
        = OpenStreamsList.Get other osl
      /\ OpenStreamsList.Exists other (OpenStreamsList.Add token ac osl)
         = OpenStreamsList.Exists other osl).
Proof.
  unfold OpenStreamsList.Exists, OpenStreamsList.Get, OpenStreamsList.Add; simpl.
  rewrite lookup_insert_eq. do 2 (split; [reflexivity|]).
  intros Hne. by rewrite lookup_insert_ne.
Qed.

(** X2: a token that was deleted is missing afterwards, for [Exists] and
    for [Get] (which answers nil), whether or not it was registered; every
    other token is found or missing as before. *)
Theorem Delete_then_Get (AppController : Type) (osl : OpenStreamsList.t AppController)
    (token other : SessionToken) :
  OpenStreamsList.Exists token (OpenStreamsList.Delete token osl) = false
  /\ OpenStreamsList.Get token (OpenStreamsList.Delete token osl) = None
  /\ (other <> token ->
      OpenStreamsList.Get other (OpenStreamsList.Delete token osl)
        = OpenStreamsList.Get other osl
      /\ OpenStreamsList.Exists other (OpenStreamsList.Delete token osl)
         = OpenStreamsList.Exists other osl).
Proof.
  unfold OpenStreamsList.Exists, OpenStreamsList.Get, OpenStreamsList.Delete; simpl.
  rewrite lookup_delete_eq. do 2 (split; [reflexivity|]).
  intros Hne. by rewrite lookup_delete_ne.
Qed.

(** X3: adding a token that is not registered and deleting it again gives
    the registry back, map and counter, as long as the counter is not at
    the top of the integer range. *)
Theorem Delete_Add_round_trip (AppController : Type)
    (osl : OpenStreamsList.t AppController) (token : SessionToken)
    (ac : AppController) :
  OpenStreamsList.streams osl !! token = None ->
  - 2 ^ 63 <= OpenStreamsList.length osl < 2 ^ 63 - 1 ->
  OpenStreamsList.Delete token (OpenStreamsList.Add token ac osl) = osl.
Proof.
  intros Hfresh Hrange. destruct osl as [m l]; simpl in *.
  unfold OpenStreamsList.Delete, OpenStreamsList.Add; simpl.
  rewrite delete_insert_id by exact Hfresh.
  rewrite int_add_small by lia. rewrite int_sub_small by lia.
  f_equal. lia.
Qed.

Lemma Delete_Add_round_trip_witness :
  OpenStreamsList.Delete "c" (OpenStreamsList.Add "c" 3%nat sampleRegistry)
  = sampleRegistry.
Proof.
  apply (Delete_Add_round_trip nat sampleRegistry "c" 3%nat).
  - reflexivity.
  - range_by_eval.
Defined.

(** X4: adding a token that is already registered replaces its controller
    and raises the counter all the same, so that deleting the token
    afterwards removes the entry and leaves the counter where it was: the
    map has one entry fewer than the counter says. *)
Theorem Add_registered_drifts (AppController : Type)
    (osl : OpenStreamsList.t AppController) (token : SessionToken)
    (ac : AppController) :
  is_Some (OpenStreamsList.streams osl !! token) ->
  - 2 ^ 63 <= OpenStreamsList.length osl < 2 ^ 63 - 1 ->
  size (OpenStreamsList.streams (OpenStreamsList.Add token ac osl))
    = size (OpenStreamsList.streams osl)
  /\ OpenStreamsList.length (OpenStreamsList.Add token ac osl)
     = OpenStreamsList.length osl + 1
  /\ OpenStreamsList.length
       (OpenStreamsList.Delete token (OpenStreamsList.Add token ac osl))
     = OpenStreamsList.length osl
  /\ S (size (OpenStreamsList.streams
                (OpenStreamsList.Delete token (OpenStreamsList.Add token ac osl))))
     = size (OpenStreamsList.streams osl).
Proof.
  intros Hin Hrange. destruct osl as [m l]; simpl in *.
  rewrite map_size_insert_Some by exact Hin.
  rewrite int_add_small by lia. rewrite int_sub_small by lia.
  split; [reflexivity|]. split; [reflexivity|]. split; [lia|].
  rewrite delete_insert_eq, map_size_delete_Some by exact Hin.
  destruct Hin as [a Ha].
  assert (size m <> 0%nat) as Hnz.
  { intros Hz. apply map_size_empty_inv in Hz. subst m. by rewrite lookup_empty in Ha. }
  lia.
Qed.

Lemma Add_registered_drifts_witness :
  let osl :=
    OpenStreamsList.Delete "a"
      (OpenStreamsList.Add "a" 7%nat
         (OpenStreamsList.Add "a" 1%nat OpenStreamsList.NewOpenStreamsList)) in
  OpenStreamsList.streams osl = ∅ /\ OpenStreamsList.length osl = 1
  /\ OpenStreamsList.IsEmpty osl = false.
Proof.
  intros osl.
  destruct (Add_registered_drifts nat
              (OpenStreamsList.Add "a" 1%nat OpenStreamsList.NewOpenStreamsList)
              "a" 7%nat) as (_ & _ & Hlen & Hsize).
  - vm_compute. eauto.
  - range_by_eval.
  - assert (OpenStreamsList.length osl = 1) as Hl by exact Hlen.
    split; [|split; [exact Hl|]].
    + apply map_size_empty_inv.
      change (size (OpenStreamsList.streams osl) = 0%nat).
      assert (size (OpenStreamsList.streams
                      (OpenStreamsList.Add "a" 1%nat
                         (@OpenStreamsList.NewOpenStreamsList nat))) = 1%nat) as H1
        by (vm_compute; reflexivity).
      rewrite H1 in Hsize. unfold osl. lia.
    + unfold OpenStreamsList.IsEmpty. by rewrite Hl.
Defined.

(** X5: the counter equals the number of entries for as long as [Add] is
    called with tokens that are not registered and [Delete] with tokens
    that are; under that discipline [IsEmpty] answers true exactly when the
    map is empty. *)
Theorem length_tracks_entries_kept (AppController : Type)
    (osl : OpenStreamsList.t AppController) (token : SessionToken)
    (ac : AppController) :
  length_tracks_entries osl ->
  Z.of_nat (size (OpenStreamsList.streams osl)) < 2 ^ 63 - 1 ->
  (OpenStreamsList.streams osl !! token = None ->
     length_tracks_entries (OpenStreamsList.Add token ac osl))
  /\ (is_Some (OpenStreamsList.streams osl !! token) ->
        length_tracks_entries (OpenStreamsList.Delete token osl))
  /\ (OpenStreamsList.IsEmpty osl = true <-> OpenStreamsList.streams osl = ∅).
Proof.
  unfold length_tracks_entries. intros Htrack Hrange.
  destruct osl as [m l]; simpl in *. subst l.
  split; [|split].
  - intros Hfresh. rewrite map_size_insert_None by exact Hfresh.
    rewrite int_add_small by lia. lia.
  - intros Hin. rewrite map_size_delete_Some by exact Hin.
    destruct Hin as [a Ha].
    assert (size m <> 0%nat) as Hnz.
    { intros Hz. apply map_size_empty_inv in Hz. subst m. by rewrite lookup_empty in Ha. }
    rewrite int_sub_small by lia. lia.
  - unfold OpenStreamsList.IsEmpty; simpl. rewrite Z.eqb_eq.
    rewrite <- map_size_empty_iff. lia.
Qed.

Lemma length_tracks_entries_kept_witness :
  length_tracks_entries (OpenStreamsList.Add "c" 3%nat sampleRegistry)
  /\ length_tracks_entries (OpenStreamsList.Delete "a" sampleRegistry)
  /\ OpenStreamsList.IsEmpty sampleRegistry = false.
Proof.
  destruct (length_tracks_entries_kept nat sampleRegistry "c" 3%nat)
    as (Hadd & _ & Hempty); [vm_compute; reflexivity | range_by_eval |].
  destruct (length_tracks_entries_kept nat sampleRegistry "a" 3%nat)
    as (_ & Hdel & _); [vm_compute; reflexivity | range_by_eval |].
  split; [by apply Hadd|]. split; [apply Hdel; vm_compute; eauto|].
  reflexivity.
Defined.

(** ** The hub: unregistration, isolation, and what a sweep never does *)

(** X6: an unregister request marks the connection closed, closes both of
    its queues if it was marked open, and leaves the queued messages in
    place; a second unregister request for the same connection changes
    nothing. *)
Theorem unregister_idempotent (p : ClientPtr) (st st' : State) (c : Client) :
  clients st !! p = Some c ->
  unregister p st = Ok st' ->
  unregister p st' = Ok st'
  /\ exists c',
       clients st' !! p = Some c'
       /\ open c' = false
       /\ buf (send c') = buf (send c)
       /\ buf (sendToken c') = buf (sendToken c)
       /\ (open c = true ->
           closed (send c') = true /\ closed (sendToken c') = true).
Proof.
  intros Hc. unfold unregister at 1. unfold deref. rewrite Hc. simpl.
  destruct (open c) eqn:Hopen.
  - unfold chan_close.
    destruct (closed (send c)); simpl; [discriminate|].
    destruct (closed (sendToken c)); simpl; [discriminate|].
    intros [= <-]. split.
    + unfold unregister, deref. simpl. rewrite lookup_insert_eq. reflexivity.
    + eexists. split; [apply lookup_insert_eq|]. repeat split.
  - intros [= <-]. split.
    + unfold unregister, deref. rewrite Hc. simpl. by rewrite Hopen.
    + exists c. split; [exact Hc|]. by rewrite Hopen.
Qed.

Lemma unregister_idempotent_witness :
  exists st' c',
    unregister 0%nat registeredOne = Ok st'
    /\ unregister 0%nat st' = Ok st'
    /\ clients st' !! 0%nat = Some c'
    /\ open c' = false /\ closed (send c') = true.
Proof.
  destruct (unregister 0%nat registeredOne) as [st'| |] eqn:Hun;
    try (vm_compute in Hun; discriminate).
  assert (exists c, clients registeredOne !! 0%nat = Some c /\ open c = true)
    as (c & Hc & Hopen) by (eexists; split; vm_compute; reflexivity).
  destruct (unregister_idempotent 0%nat registeredOne st' c Hc Hun)
    as (Hagain & c' & Hc' & Hclosed & _ & _ & Hq).
  exists st', c'. repeat split; try assumption. by apply Hq.
Defined.

Section Isolation.
Variable sessionDuration : Z.

Lemma SetClient_other (token : SessionToken) (p q : ClientPtr) (st st' : State) :
  SessionStore.SetClient token p st = Ok st' -> q <> p ->
  clients st' !! q = clients st !! q.
Proof.
  unfold SessionStore.SetClient.
  destruct (sessions st !! token); [|by intros [= <-]].
  destruct (deref p st) as [c| |]; simpl; try discriminate.
  intros [= <-] Hne. simpl. by rewrite lookup_insert_ne.
Qed.

Lemma register_other (now : Z) (candidates : list SessionToken)
    (p q : ClientPtr) (st st' : State) :
  register sessionDuration now candidates p st = Ok st' -> q <> p ->
  clients st' !! q = clients st !! q.
Proof.
  unfold register.
  destruct (deref p st) as [c| |]; simpl; try discriminate.
  destruct (chan_recv EmptyString (sendToken c)) as [[[token ok] tq]| |];
    simpl; try discriminate.
  destruct ((token =? "nil")%string || negb (SessionStore.Exists token (sessions st))).
  - destruct (SessionStore.NewSession sessionDuration now candidates (sessions st))
      as [[minted err] m].
    destruct (chan_send minted tq) as [tq'| |]; simpl; try discriminate.
    intros Hset Hne. rewrite (SetClient_other _ _ _ _ _ Hset Hne). simpl.
    by rewrite lookup_insert_ne.
  - intros Hset Hne. rewrite (SetClient_other _ _ _ _ _ Hset Hne). simpl.
    by rewrite lookup_insert_ne.
Qed.

Lemma unregister_other (p q : ClientPtr) (st st' : State) :
  unregister p st = Ok st' -> q <> p -> clients st' !! q = clients st !! q.
Proof.
  unfold unregister.
  destruct (deref p st) as [c| |]; simpl; try discriminate.
  destruct (open c); [|by intros [= <-]].
  destruct (chan_close (send c)) as [s| |]; simpl; try discriminate.
  destruct (chan_close (sendToken c)) as [t| |]; simpl; try discriminate.
  intros [= <-] Hne. simpl. by rewrite lookup_insert_ne.
Qed.

End Isolation.

(** X7: the registration or the unregistration of one connection leaves
    every other connection of the heap as it is, and unregistration leaves
    the session store as it is. *)
Theorem register_unregister_local (sessionDuration : Z) (p q : ClientPtr)
    (st st' : State) :
  q <> p ->
  (forall now candidates,
     register sessionDuration now candidates p st = Ok st' ->
     clients st' !! q = clients st !! q)
  /\ (unregister p st = Ok st' ->
      clients st' !! q = clients st !! q /\ sessions st' = sessions st).
Proof.
  intros Hne. split.
  - intros now candidates Hreg. by eapply register_other.
  - intros Hun. split; [by eapply unregister_other | by eapply unregister_sessions].
Qed.

Lemma register_unregister_local_witness :
  exists st',
    unregister 0%nat acceptedSecond = Ok st'
    /\ clients st' !! 1%nat = clients acceptedSecond !! 1%nat
    /\ sessions st' = sessions acceptedSecond.
Proof.
  destruct (unregister 0%nat acceptedSecond) as [st'| |] eqn:Hun;
    try (vm_compute in Hun; discriminate).
  exists st'. split; [reflexivity|].
  apply (register_unregister_local sampleTTL 0%nat 1%nat acceptedSecond st');
    [discriminate | exact Hun].
Defined.

Section SweepNeverBlocks.
Variable sessionDuration : Z.
Variable now : Z.
Variable message : list byte.

Lemma visit_never_blocks (key : SessionToken) (ctx : Session)
    (acc : State * Counters) :
  visit sessionDuration now message key ctx acc <> Block.
Proof.
  destruct acc as [st n]. unfold visit.
  destruct (SessionStore.SessionExpired now ctx); [discriminate|].
  destruct (Client_ ctx) as [p|]; simpl; [|discriminate].
  unfold deref. destruct (clients st !! p) as [c|]; simpl; [|discriminate].
  destruct (open c); simpl; [|discriminate].
  unfold chan_try_send, chan_close.
  destruct (closed (send c)); simpl; [discriminate|].
  destruct (len (send c) <? cap (send c))%nat; simpl; [discriminate|].
  destruct (closed (sendToken c)); simpl; discriminate.
Qed.

Lemma sweep_never_blocks (order : list SessionToken) (acc : State * Counters) :
  SessionStore.Range (fun a : State * Counters => sessions (fst a))
    (visit sessionDuration now message) order acc <> Block.
Proof.
  revert acc. induction order as [|key rest IH]; intros acc; simpl; [discriminate|].
  destruct (sessions acc.1 !! key) as [ctx|]; [|apply IH].
  pose proof (visit_never_blocks key ctx acc) as Hv.
  destruct (visit sessionDuration now message key ctx acc) as [[b acc']| |];
    simpl; [|discriminate|done].
  destruct b; [apply IH|discriminate].
Qed.

(** The state after a visit that goes on is safe for the next visit. *)
Lemma sweep_safe_update (st : State) (m' : gmap string Session) (p : ClientPtr)
    (c' : Client) :
  sweep_safe st -> is_Some (clients st !! p) ->
  (open c' = true -> closed (send c') = false /\ closed (sendToken c') = false) ->
  (forall k s', m' !! k = Some s' ->
     exists k0 s0, sessions st !! k0 = Some s0 /\ Client_ s' = Client_ s0) ->
  sweep_safe (mkState m' (<[p := c']> (clients st))).
Proof.
  intros Hsafe Hp Hc' Hm k s' Hk. cbv beta.
  destruct (Hm k s' Hk) as (k0 & s0 & Hk0 & HC).
  pose proof (Hsafe k0 s0 Hk0) as Hs0. cbv beta in Hs0.
  unfold session_safe in *. rewrite HC.
  destruct (Client_ s0) as [q|]; [|done]. simpl.
  destruct (decide (p = q)) as [->|Hne].
  - by rewrite lookup_insert_eq.
  - by rewrite lookup_insert_ne.
Qed.

Lemma visit_safe (key : SessionToken) (ctx : Session) (st : State) (n : Counters) :
  sweep_safe st -> sessions st !! key = Some ctx ->
  exists b st' n',
    visit sessionDuration now message key ctx (st, n) = Ok (b, (st', n'))
    /\ (b = true -> sweep_safe st').
Proof.
  intros Hsafe Hk.
  pose proof (Hsafe key ctx Hk) as Hctx. cbv beta in Hctx. unfold session_safe in Hctx.
  destruct (SessionStore.SessionExpired now ctx) eqn:Hexp.
  { eexists _, _, _. split.
    - apply visit_intro. by apply VisitExpired.
    - intros _ k s Hks. simpl in Hks.
      apply lookup_delete_Some in Hks as [_ Hks]. exact (Hsafe k s Hks). }
  destruct (Client_ ctx) as [p|] eqn:Hp; [|done].
  destruct (clients st !! p) as [c|] eqn:Hc; [|done].
  destruct (open c) eqn:Hopen.
  2:{ eexists _, _, _. split.
      - apply visit_intro. by eapply VisitClosed.
      - by intros _. }
  destruct (Hctx eq_refl) as [Hcl Hclt].
  destruct (decide (len (send c) < cap (send c))%nat) as [Hlt|Hge].
  - eexists _, _, _. split.
    + apply visit_intro. by eapply VisitSent.
    + intros _. apply sweep_safe_update;
        [exact Hsafe | by rewrite Hc
        | intros _; simpl; split; [reflexivity | exact Hclt] |].
      intros k s'. destruct (decide (key = k)) as [->|Hne].
      * rewrite lookup_insert_eq. intros [= <-]. eauto.
      * rewrite lookup_insert_ne by done. eauto.
  - eexists _, _, _. split.
    + apply visit_intro. eapply VisitFull; eauto. lia.
    + discriminate.
Qed.

Lemma sweep_safe_returns (order : list SessionToken) :
  forall st n, sweep_safe st ->
    exists r,
      SessionStore.Range (fun a : State * Counters => sessions (fst a))
        (visit sessionDuration now message) order (st, n) = Ok r.
Proof.
  induction order as [|key rest IH]; intros st n Hsafe; [by eexists|].
  rewrite sweep_cons.
  destruct (sessions st !! key) as [ctx|] eqn:Hk; [|by apply IH].
  destruct (visit_safe key ctx st n Hsafe Hk) as (b & st' & n' & -> & Hnext).
  simpl. destruct b; [by apply IH, Hnext | by eexists].
Qed.

End SweepNeverBlocks.

(** X8: a broadcast sweep never waits: whatever the store, the heap and
    the order, it ends with a result or with a panic of the runtime, never
    in a channel operation that cannot proceed. *)
Theorem broadcastAll_never_blocks (sessionDuration now : Z)
    (order : list SessionToken) (message : list byte) (st : State) :
  (exists r, broadcastAll sessionDuration now order message st = Ok r)
  \/ (exists f, broadcastAll sessionDuration now order message st = Panic f).
Proof.
  pose proof (sweep_never_blocks sessionDuration now message order (st, zeroCounters))
    as Hnb.
  unfold broadcastAll.
  destruct (SessionStore.Range _ _ order (st, zeroCounters)) as [r|f|]; eauto.
  done.
Qed.

(** X9: when every session of the store points to a connection of the
    heap, and every connection marked open has both of its queues open, a
    broadcast sweep returns: it does not panic. *)
Theorem broadcastAll_returns_when_safe (sessionDuration now : Z)
    (order : list SessionToken) (message : list byte) (st : State) :
  sweep_safe st ->
  exists st' n, broadcastAll sessionDuration now order message st = Ok (st', n).
Proof.
  intros Hsafe.
  destruct (sweep_safe_returns sessionDuration now message order st zeroCounters Hsafe)
    as [[st' n] Hr].
  by exists st', n.
Qed.

Lemma broadcastAll_returns_when_safe_witness :
  exists st' n,
    broadcastAll sampleTTL 9 ["t3"; "t1"; "t2"] ping
      (state_of (play sampleTTL threeClients emptyState)) = Ok (st', n).
Proof.
  apply (broadcastAll_returns_when_safe sampleTTL 9 ["t3"; "t1"; "t2"] ping).
  apply (bool_decide_unpack _). vm_compute. exact I.
Defined.

Section SweepTally.
Variable sessionDuration : Z.
Variable now : Z.
Variable message : list byte.

Lemma flags_kept_refl (st : State) : flags_kept st st.
Proof. intros p c Hc. eauto. Qed.

Lemma flags_kept_trans (st1 st2 st3 : State) :
  flags_kept st1 st2 -> flags_kept st2 st3 -> flags_kept st1 st3.
Proof.
  intros H12 H23 p c3 Hc3.
  destruct (H23 p c3 Hc3) as (c2 & Hc2 & Hs & Ht).
  destruct (H12 p c2 Hc2) as (c1 & Hc1 & Hs' & Ht').
  exists c1. repeat split; congruence.
Qed.

Lemma one_closed_after (st1 st2 st3 : State) :
  flags_kept st1 st2 -> one_closed st2 st3 -> one_closed st1 st3.
Proof.
  intros H12 (p & c2 & c3 & Hc2 & Hcl & Hc3 & Hs & Ht & Hopen & Hothers).
  destruct (H12 p c2 Hc2) as (c1 & Hc1 & Hs1 & Ht1).
  exists p, c1, c3. repeat split; try assumption; [congruence|].
  intros q c' Hne Hc'.
  destruct (Hothers q c' Hne Hc') as (cq2 & Hq2 & Hsq & Htq).
  destruct (H12 q cq2 Hq2) as (cq1 & Hq1 & Hsq' & Htq').
  exists cq1. repeat split; congruence.
Qed.

Lemma visit_flags_kept (key : SessionToken) (ctx : Session) (st st' : State)
    (n n' : Counters) :
  visit_outcome sessionDuration now message key ctx st n true st' n' ->
  flags_kept st st'.
Proof.
  intros Hv p c' Hc'.
  destruct (visit_continue_flags _ _ _ _ _ _ _ _ _ Hv p c' Hc') as (c & Hc & Hs & Ht & _).
  eauto.
Qed.

(** The tallies of a sweep that starts with as many messages sent as
    sessions refreshed. *)
Lemma sweep_tally (order : list SessionToken) :
  forall st n st' n',
    SessionStore.Range (fun a : State * Counters => sessions (fst a))
      (visit sessionDuration now message) order (st, n) = Ok (st', n') ->
    0 <= expiredSessionCount n -> 0 <= closedClientCount n ->
    0 <= messagesSent n -> refreshedClientCount n = messagesSent n ->
    expiredSessionCount n + closedClientCount n + refreshedClientCount n
      + Z.of_nat (List.length order) < 2 ^ 63 ->
    0 <= expiredSessionCount n' /\ 0 <= closedClientCount n'
    /\ 0 <= messagesSent n'
    /\ expiredSessionCount n' + closedClientCount n' + refreshedClientCount n'
       <= expiredSessionCount n + closedClientCount n + refreshedClientCount n
          + Z.of_nat (List.length order)
    /\ (refreshedClientCount n' = messagesSent n' /\ flags_kept st st'
        \/ refreshedClientCount n' = messagesSent n' + 1 /\ one_closed st st').
Proof.
  induction order as [|key rest IH]; intros st n st' n' Hsweep He Hc Hs Hrs Hb.
  { injection Hsweep as <- <-. simpl in *.
    repeat split; try lia. left. split; [exact Hrs | apply flags_kept_refl]. }
  rewrite sweep_cons in Hsweep. rewrite length_cons, Nat2Z.inj_succ in *.
  destruct (sessions st !! key) as [ctx|] eqn:Hk.
  2:{ destruct (IH st n st' n' Hsweep He Hc Hs Hrs) as (? & ? & ? & ? & ?); [lia|].
      repeat split; try assumption; lia. }
  destruct (visit sessionDuration now message key ctx (st, n))
    as [[b [st1 n1]]| |] eqn:Hv; simpl in Hsweep; try discriminate.
  apply visit_inv in Hv. destruct b.
  - pose proof (visit_flags_kept _ _ _ _ _ _ Hv) as Hkept.
    assert (0 <= expiredSessionCount n1 /\ 0 <= closedClientCount n1
            /\ 0 <= messagesSent n1 /\ refreshedClientCount n1 = messagesSent n1
            /\ expiredSessionCount n1 + closedClientCount n1 + refreshedClientCount n1
               = expiredSessionCount n + closedClientCount n + refreshedClientCount n + 1)
      as (He1 & Hc1 & Hs1 & Hrs1 & Hsum).
    { inversion Hv; subst; simpl; rewrite ?int_add_small by lia; lia. }
    destruct (IH st1 n1 st' n' Hsweep He1 Hc1 Hs1 Hrs1) as (? & ? & ? & ? & Hend); [lia|].
    repeat split; try assumption; [lia|].
    destruct Hend as [[Hr Hf]|[Hr Ho]].
    + left. split; [exact Hr|]. by eapply flags_kept_trans.
    + right. split; [exact Hr|]. by eapply one_closed_after.
  - injection Hsweep as <- <-.
    inversion Hv as [ | | | p c Hexp Hp Hcp Hopen Hcl Hclt Hlen]; subst. simpl.
    rewrite int_add_small by lia.
    repeat split; try lia. right. split; [lia|].
    exists p, c, (force_closed c). simpl.
    repeat split; try assumption; [apply lookup_insert_eq|].
    intros q c1' Hne Hq. rewrite lookup_insert_ne in Hq by done. eauto.
Qed.

(** What a sweep leaves of the heap and the store. *)
Lemma sweep_frame (st0 : State) (order : list SessionToken) (st' : State)
    (n' : Counters) :
  SessionStore.Range (fun a : State * Counters => sessions (fst a))
    (visit sessionDuration now message) order (st0, zeroCounters) = Ok (st', n') ->
  dom (clients st') = dom (clients st0)
  /\ dom (sessions st') ⊆ dom (sessions st0)
  /\ forall p c', clients st' !! p = Some c' ->
       exists c, clients st0 !! p = Some c /\ same_but_queues c c'.
Proof.
  intros Hsweep.
  apply (Range_invariant sessionDuration now message
           (fun acc =>
              dom (clients acc.1) = dom (clients st0)
              /\ dom (sessions acc.1) ⊆ dom (sessions st0)
              /\ forall p c', clients acc.1 !! p = Some c' ->
                   exists c, clients st0 !! p = Some c /\ same_but_queues c c'))
    in Hsweep; [exact Hsweep | | ].
  2:{ simpl. repeat split; try done. intros p c Hc. exists c. by repeat split. }
  intros key ctx st n b st1 n1 (Hdc & Hds & Hq) Hk Hv. simpl in *.
  assert (forall p c c1, clients st !! p = Some c -> same_but_queues c c1 ->
            dom (<[p := c1]> (clients st)) = dom (clients st0)
            /\ forall q c', <[p := c1]> (clients st) !! q = Some c' ->
                 exists c0, clients st0 !! q = Some c0 /\ same_but_queues c0 c')
    as Hins.
  { intros p c c1 Hc Hsame. split.
    - rewrite dom_insert_L, <- Hdc. apply elem_of_dom_2 in Hc.
      apply subseteq_union_1_L. by apply singleton_subseteq_l.
    - intros q c'. destruct (decide (p = q)) as [->|Hne].
      + rewrite lookup_insert_eq. intros [= <-].
        destruct (Hq q c Hc) as (c0 & Hc0 & H1 & H2 & H3 & H4).
        destruct Hsame as (H1' & H2' & H3' & H4').
        exists c0. repeat split; congruence.
      + rewrite lookup_insert_ne by done. apply Hq. }
  assert (dom (<[key := refreshed sessionDuration now ctx]> (sessions st))
          ⊆ dom (sessions st0)) as Hsess.
  { rewrite dom_insert_L. apply elem_of_dom_2 in Hk.
    apply union_least; [|exact Hds]. apply singleton_subseteq_l. by apply Hds. }
  inversion Hv as [Hexp | p c Hexp Hp Hc Hopen
                  | p c Hexp Hp Hc Hopen Hcl Hlen
                  | p c Hexp Hp Hc Hopen Hcl Hclt Hlen]; subst; simpl.
  - repeat split; try assumption.
    rewrite dom_delete_L. etrans; [apply subseteq_difference_l|]; done.
  - by repeat split.
  - destruct (Hins p c (enqueued message c) Hc) as [Hd Hl]; [by repeat split|].
    by repeat split.
  - destruct (Hins p c (force_closed c) Hc) as [Hd Hl]; [by repeat split|].
    by repeat split.
Qed.

End SweepTally.

(** X10: a sweep closes the queues of at most one connection.  Its
    tallies account for the sessions it visited (at most the length of the
    order); either it sent the message to every session it refreshed and
    closed no queue, or it refreshed one session more than it sent to, and
    then exactly one connection, whose message queue was open before, has
    both queues closed and is still marked open. *)
Theorem broadcastAll_closes_at_most_one (sessionDuration now : Z)
    (order : list SessionToken) (message : list byte) (st st' : State)
    (n : Counters) :
  broadcastAll sessionDuration now order message st = Ok (st', n) ->
  Z.of_nat (List.length order) < 2 ^ 63 ->
  0 <= expiredSessionCount n /\ 0 <= closedClientCount n /\ 0 <= messagesSent n
  /\ expiredSessionCount n + closedClientCount n + refreshedClientCount n
     <= Z.of_nat (List.length order)
  /\ (refreshedClientCount n = messagesSent n /\ flags_kept st st'
      \/ refreshedClientCount n = messagesSent n + 1 /\ one_closed st st').
Proof.
  intros Hsweep Hlen. unfold broadcastAll in Hsweep.
  destruct (sweep_tally sessionDuration now message order st zeroCounters st' n Hsweep)
    as (He & Hc & Hs & Hsum & Hend); simpl; try lia.
  simpl in Hsum. repeat split; assumption.
Qed.

Lemma broadcastAll_closes_at_most_one_witness :
  exists st' n,
    broadcastAll sampleTTL 2 ["t1"] hello
      (state_of (play sampleTTL slowConsumer emptyState)) = Ok (st', n)
    /\ refreshedClientCount n = 1 /\ messagesSent n = 0
    /\ (refreshedClientCount n = messagesSent n
        \/ refreshedClientCount n = messagesSent n + 1).
Proof.
  destruct (broadcastAll sampleTTL 2 ["t1"] hello
              (state_of (play sampleTTL slowConsumer emptyState)))
    as [[st' n]| |] eqn:Hsweep; try (vm_compute in Hsweep; discriminate).
  exists st', n. split; [reflexivity|].
  destruct (broadcastAll_closes_at_most_one sampleTTL 2 ["t1"] hello _ st' n Hsweep)
    as (_ & _ & _ & _ & Hend); [simpl; lia|].
  assert (refreshedClientCount n = 1 /\ messagesSent n = 0) as [Hr Hs].
  { vm_compute in Hsweep. injection Hsweep as <- <-. split; reflexivity. }
  repeat split; try assumption.
  destruct Hend as [[H _]|[H _]]; [by left | by right].
Defined.

(** X11: a sweep adds no connection, removes none, and adds no session;
    of a connection it changes at most the two queues, never the [open]
    flag, the session, the start signal or the transport; and it leaves a
    connection that no session points to exactly as it is. *)
Theorem broadcastAll_touches_queues_only (sessionDuration now : Z)
    (order : list SessionToken) (message : list byte) (st st' : State)
    (n : Counters) :
  broadcastAll sessionDuration now order message st = Ok (st', n) ->
  dom (clients st') = dom (clients st)
  /\ dom (sessions st') ⊆ dom (sessions st)
  /\ (forall p c', clients st' !! p = Some c' ->
        exists c, clients st !! p = Some c /\ same_but_queues c c')
  /\ (forall p,
        (forall k s, sessions st !! k = Some s -> Client_ s <> Some p) ->
        clients st' !! p = clients st !! p).
Proof.
  intros Hsweep.
  destruct (sweep_frame sessionDuration now message st order st' n Hsweep)
    as (Hd & Hs & Hq).
  repeat split; try assumption.
  intros p Hfree. by eapply broadcastAll_unbound.
Qed.

Lemma broadcastAll_touches_queues_only_witness :
  exists st' n,
    broadcastAll sampleTTL 3 ["t1"] hello acceptedSecond = Ok (st', n)
    /\ dom (clients st') = dom (clients acceptedSecond)
    /\ clients st' !! 1%nat = clients acceptedSecond !! 1%nat.
Proof.
  destruct (broadcastAll sampleTTL 3 ["t1"] hello acceptedSecond)
    as [[st' n]| |] eqn:Hsweep; try (vm_compute in Hsweep; discriminate).
  exists st', n. split; [reflexivity|].
  destruct (broadcastAll_touches_queues_only sampleTTL 3 ["t1"] hello
              acceptedSecond st' n Hsweep) as (Hd & _ & _ & Hfree).
  split; [exact Hd|]. apply Hfree.
  intros k s Hk Hs.
  assert (map_Forall (fun _ s => Client_ s <> Some 1%nat) (sessions acceptedSecond))
    as Hall by (apply (bool_decide_unpack _); vm_compute; exact I).
  exact (Hall k s Hk Hs).
Defined.

(** X12: for an unexpired session bound to an open connection with open
    queues and the message queue that [serveWs] makes, a visit of the sweep
    closes the queues and stops the sweep exactly when [Full] holds of the
    connection, and puts the message on the queue otherwise; a connection
    that is [Full] is one for which both buffer diagnostics log. *)
Theorem Full_decides_forced_close (sessionDuration now : Z) (message : list byte)
    (key : SessionToken) (ctx : Session) (st : State) (n : Counters)
    (p : ClientPtr) (c : Client) :
  SessionStore.SessionExpired now ctx = false ->
  Client_ ctx = Some p -> clients st !! p = Some c -> open c = true ->
  closed (send c) = false -> closed (sendToken c) = false ->
  cap (send c) = sendMsgBufferSize -> (len (send c) <= sendMsgBufferSize)%nat ->
  (exists st' n',
     visit sessionDuration now message key ctx (st, n)
       = Ok (negb (Full c), (st', n'))
     /\ clients st' !! p
        = Some (if Full c then force_closed c else enqueued message c))
  /\ logBufferFull c = Full c
  /\ (Full c = true -> logBufferRedZone c = true).
Proof.
  intros Hexp Hp Hc Hopen Hcl Hclt Hcap Hlen. split; [|split; [reflexivity|]].
  - unfold Full. destruct (len (send c) =? sendMsgBufferSize)%nat eqn:Hfull.
    + apply Nat.eqb_eq in Hfull. eexists _, _. split.
      * apply visit_intro.
        eapply (VisitFull sessionDuration now message key ctx st n p c); eauto. lia.
      * apply lookup_insert_eq.
    + apply Nat.eqb_neq in Hfull. eexists _, _. split.
      * apply visit_intro.
        eapply (VisitSent sessionDuration now message key ctx st n p c); eauto. lia.
      * apply lookup_insert_eq.
  - unfold Full, logBufferRedZone. intros Hfull%Nat.eqb_eq. rewrite Hfull.
    reflexivity.
Qed.

Lemma Full_decides_forced_close_witness :
  exists c st' n',
    clients (state_of (play sampleTTL slowConsumer emptyState)) !! 0%nat = Some c
    /\ Full c = true
    /\ visit sampleTTL 2 hello "t1" (mkSession "t1" (1 + sampleTTL) (Some 0%nat))
         (state_of (play sampleTTL slowConsumer emptyState), zeroCounters)
       = Ok (false, (st', n'))
    /\ clients st' !! 0%nat = Some (force_closed c).
Proof.
  assert (exists c,
            clients (state_of (play sampleTTL slowConsumer emptyState)) !! 0%nat
              = Some c
            /\ Full c = true /\ open c = true
            /\ closed (send c) = false /\ closed (sendToken c) = false
            /\ cap (send c) = sendMsgBufferSize
            /\ (len (send c) <= sendMsgBufferSize)%nat)
    as (c & Hc & Hfull & Hopen & Hcl & Hclt & Hcap & Hlen).
  { eexists. split; [vm_compute; reflexivity|].
    repeat split; vm_compute; try reflexivity; lia. }
  destruct (Full_decides_forced_close sampleTTL 2 hello "t1"
              (mkSession "t1" (1 + sampleTTL) (Some 0%nat))
              (state_of (play sampleTTL slowConsumer emptyState)) zeroCounters
              0%nat c eq_refl eq_refl Hc Hopen Hcl Hclt Hcap Hlen)
    as ((st' & n' & Hv & Hp) & _ & _).
  rewrite Hfull in Hv, Hp. exists c, st', n'. repeat split; assumption.
Defined.

(** ** The write pump: tokens, transport errors, the wire *)

Section PumpFacts.

Lemma OnSend_frame (c : Client) (message : list byte) (queued : list (list byte)) :
  buf (send c) = message :: queued ->
  writePump_iter (OnSend false false) c
  = Ok (Running,
        conn_write (TextMessage (frame_of message queued))
          (set_send (Chan [] (cap (send c)) (closed (send c))) c)).
Proof.
  intros Hbuf. unfold writePump_iter, chan_recv. rewrite Hbuf. simpl.
  unfold len; simpl. rewrite (drain_all [] id queued). simpl.
  destruct c; reflexivity.
Qed.

Lemma writePump_cons (ev : PumpEvent) (rest : list PumpEvent) (c : Client) :
  writePump (ev :: rest) c
  = '(status, c') ← writePump_iter ev c;
    match status with
    | Returned => Ok (Returned, c')
    | Running => writePump rest c'
    end.
Proof. reflexivity. Qed.

(** Two concatenations of newline-free heads with tails that are empty or
    begin with a newline agree only if heads and tails agree. *)
Lemma newline_free_head (a b r1 r2 : list byte) :
  newline_free a -> newline_free b ->
  (r1 = [] \/ exists t, r1 = x0a :: t) ->
  (r2 = [] \/ exists t, r2 = x0a :: t) ->
  a ++ r1 = b ++ r2 -> a = b /\ r1 = r2.
Proof.
  unfold newline_free. revert b.
  induction a as [|x a IH]; intros [|y b] Ha Hb H1 H2 Heq; simpl in Heq.
  - by split.
  - destruct H1 as [->|[t ->]]; [discriminate|].
    injection Heq as <- _. exfalso. apply Hb. by left.
  - destruct H2 as [->|[t ->]]; [discriminate|].
    injection Heq as -> _. exfalso. apply Ha. by left.
  - injection Heq as -> Heq.
    destruct (IH b) as [-> ->]; try assumption; [| |done].
    + intros Hin. apply Ha. by right.
    + intros Hin. apply Hb. by right.
Qed.

Lemma frame_of_injective (queued1 : list (list byte)) :
  forall message1 message2 queued2,
    Forall newline_free (message1 :: queued1) ->
    Forall newline_free (message2 :: queued2) ->
    frame_of message1 queued1 = frame_of message2 queued2 ->
    message1 = message2 /\ queued1 = queued2.
Proof.
  unfold frame_of.
  induction queued1 as [|m1 q1 IH]; intros message1 message2 queued2 H1 H2 Heq;
    apply Forall_cons in H1 as [Hm1 Hq1]; apply Forall_cons in H2 as [Hm2 Hq2].
  - destruct queued2 as [|m2 q2]; simpl in Heq.
    + rewrite !app_nil_r in Heq. by split.
    + destruct (newline_free_head message1 message2 [] (x0a :: m2 ++ concat (map (fun m => newline ++ m) q2)))
        as [_ Hbad]; eauto. discriminate.
  - destruct queued2 as [|m2 q2]; simpl in Heq.
    + destruct (newline_free_head message1 message2 (x0a :: m1 ++ concat (map (fun m => newline ++ m) q1)) [])
        as [_ Hbad]; eauto. discriminate.
    + destruct (newline_free_head message1 message2
                  (x0a :: m1 ++ concat (map (fun m => newline ++ m) q1))
                  (x0a :: m2 ++ concat (map (fun m => newline ++ m) q2)))
        as [-> Hrest]; eauto.
      injection Hrest as Hrest.
      destruct (IH m1 m2 q2 Hq1 Hq2 Hrest) as [-> ->]. by split.
Qed.

End PumpFacts.

(** X13: woken by a token, the pump writes it and then every token the
    token queue holds at that moment, each behind a newline, into one text
    frame, and leaves the queue empty; with the token queue that [serveWs]
    makes, of capacity one, the frame holds the one token. *)
Theorem writePump_batches_tokens (c : Client) (token : SessionToken)
    (queued : list SessionToken) :
  buf (sendToken c) = token :: queued ->
  writePump_iter (OnToken false false) c
  = Ok (Running,
        conn_write
          (TextMessage
             (String.list_byte_of_string token
              ++ concat (map (fun t => newline ++ String.list_byte_of_string t) queued)))
          (set_sendToken (Chan [] (cap (sendToken c)) (closed (sendToken c))) c))
  /\ (cap (sendToken c) = sendTokenBufferSize ->
      (len (sendToken c) <= cap (sendToken c))%nat ->
      queued = []).
Proof.
  intros Hbuf. split.
  - unfold writePump_iter, chan_recv. rewrite Hbuf. simpl.
    unfold len; simpl.
    rewrite (drain_all EmptyString String.list_byte_of_string queued). simpl.
    destruct c; reflexivity.
  - unfold len. rewrite Hbuf. intros ->. simpl. unfold sendTokenBufferSize.
    intros Hle. destruct queued; [reflexivity | simpl in Hle; lia].
Qed.

Lemma writePump_batches_tokens_witness :
  exists c c',
    clients registeredOne !! 0%nat = Some c
    /\ writePump_iter (OnToken false false) c = Ok (Running, c')
    /\ written (conn c') = [TextMessage (String.list_byte_of_string "t1")]
    /\ buf (sendToken c') = [].
Proof.
  assert (exists c, clients registeredOne !! 0%nat = Some c
                    /\ buf (sendToken c) = ["t1"] /\ written (conn c) = [])
    as (c & Hc & Hbuf & Hw) by (eexists; repeat split; vm_compute; reflexivity).
  destruct (writePump_batches_tokens c "t1" [] Hbuf) as [Hiter _].
  eexists c, _. split; [exact Hc|]. split; [exact Hiter|].
  simpl. rewrite Hw. split; reflexivity.
Defined.

(** X14: when the transport refuses the frame, the pump returns with
    nothing added to the wire and closes the transport on its way out.  If
    the writer could not be had, the message taken off the queue is lost
    and the rest of the queue stays; if the frame could not be closed, the
    whole batch is lost.  A ping that cannot be written ends the pump
    too. *)
Theorem writePump_transport_error (c : Client) (message : list byte)
    (queued : list (list byte)) (closeErr : bool) :
  buf (send c) = message :: queued ->
  writePump_iter (OnSend true closeErr) c
    = Ok (Returned,
          pump_exit (set_send (Chan queued (cap (send c)) (closed (send c))) c))
  /\ writePump_iter (OnSend false true) c
     = Ok (Returned,
           pump_exit (set_send (Chan [] (cap (send c)) (closed (send c))) c))
  /\ writePump_iter (OnTick true) c = Ok (Returned, pump_exit c)
  /\ forall ev c',
       ev = OnSend true closeErr \/ ev = OnSend false true \/ ev = OnTick true ->
       writePump_iter ev c = Ok (Returned, c') ->
       written (conn c') = written (conn c) /\ connClosed (conn c') = true.
Proof.
  intros Hbuf.
  assert (writePump_iter (OnSend true closeErr) c
          = Ok (Returned,
                pump_exit (set_send (Chan queued (cap (send c)) (closed (send c))) c)))
    as H1.
  { unfold writePump_iter, chan_recv. rewrite Hbuf. reflexivity. }
  assert (writePump_iter (OnSend false true) c
          = Ok (Returned,
                pump_exit (set_send (Chan [] (cap (send c)) (closed (send c))) c)))
    as H2.
  { unfold writePump_iter, chan_recv. rewrite Hbuf. simpl.
    unfold len; simpl. rewrite (drain_all [] id queued). simpl.
    destruct c; reflexivity. }
  split; [exact H1|]. split; [exact H2|]. split; [reflexivity|].
  intros ev c' [->|[->| ->]] Hiter.
  - rewrite H1 in Hiter. injection Hiter as <-. by destruct c as [? ? ? [? ?] ? ?].
  - rewrite H2 in Hiter. injection Hiter as <-. by destruct c as [? ? ? [? ?] ? ?].
  - simpl in Hiter. injection Hiter as <-. by destruct c as [? ? ? [? ?] ? ?].
Qed.

Lemma writePump_transport_error_witness :
  exists c',
    writePump_iter (OnSend true false) burstClient = Ok (Returned, c')
    /\ buf (send c')
       = [String.list_byte_of_string "b"; String.list_byte_of_string "c"]
    /\ written (conn c') = [] /\ connClosed (conn c') = true.
Proof.
  destruct (writePump_transport_error burstClient
              (String.list_byte_of_string "a")
              [String.list_byte_of_string "b"; String.list_byte_of_string "c"]
              false eq_refl) as (H1 & _ & _ & Hwire).
  eexists. split; [exact H1|]. split; [reflexivity|].
  apply (Hwire (OnSend true false)); [by left | exact H1].
Defined.

(** X15: the batching of the write pump loses no boundary between
    messages that hold no newline byte: if two turns of the pump write the
    same text frame, they took the same message and the same queued
    messages. *)
Theorem writePump_frame_determines_batch (c1 c2 c1' c2' : Client)
    (message1 message2 : list byte) (queued1 queued2 : list (list byte))
    (data : list byte) :
  buf (send c1) = message1 :: queued1 ->
  buf (send c2) = message2 :: queued2 ->
  Forall newline_free (message1 :: queued1) ->
  Forall newline_free (message2 :: queued2) ->
  writePump_iter (OnSend false false) c1 = Ok (Running, c1') ->
  writePump_iter (OnSend false false) c2 = Ok (Running, c2') ->
  last (written (conn c1')) = Some (TextMessage data) ->
  last (written (conn c2')) = Some (TextMessage data) ->
  message1 = message2 /\ queued1 = queued2
  /\ data = frame_of message1 queued1.
Proof.
  intros Hb1 Hb2 Hf1 Hf2 Hi1 Hi2 Hl1 Hl2.
  rewrite (OnSend_frame c1 message1 queued1 Hb1) in Hi1. injection Hi1 as <-.
  rewrite (OnSend_frame c2 message2 queued2 Hb2) in Hi2. injection Hi2 as <-.
  simpl in Hl1, Hl2. rewrite last_snoc in Hl1, Hl2.
  injection Hl1 as <-. injection Hl2 as Heq.
  destruct (frame_of_injective queued2 message2 message1 queued1 Hf2 Hf1 Heq)
    as [-> ->].
  by repeat split.
Qed.

Lemma writePump_frame_determines_batch_witness :
  exists c' data,
    writePump_iter (OnSend false false) burstClient = Ok (Running, c')
    /\ last (written (conn c')) = Some (TextMessage data)
    /\ data = frame_of (String.list_byte_of_string "a")
                [String.list_byte_of_string "b"; String.list_byte_of_string "c"].
Proof.
  destruct (writePump_iter (OnSend false false) burstClient) as [[[|] c']| |] eqn:Hiter;
    try (vm_compute in Hiter; discriminate).
  assert (Forall newline_free
            [String.list_byte_of_string "a"; String.list_byte_of_string "b";
             String.list_byte_of_string "c"]) as Hfree.
  { repeat constructor; unfold newline_free; vm_compute;
      intros H; repeat (apply elem_of_cons in H as [H|H]; [discriminate|]);
      by apply elem_of_nil in H. }
  assert (exists data, last (written (conn c')) = Some (TextMessage data))
    as [data Hlast].
  { vm_compute in Hiter. injection Hiter as <-. eexists. reflexivity. }
  exists c', data. split; [reflexivity|]. split; [exact Hlast|].
  exact (proj2 (proj2 (writePump_frame_determines_batch burstClient burstClient c' c'
                         _ _ _ _ data eq_refl eq_refl Hfree Hfree Hiter Hiter
                         Hlast Hlast))).
Defined.

Section PumpInvariants.

Lemma writePump_iter_appends (ev : PumpEvent) (c c' : Client) (status : PumpStatus) :
  writePump_iter ev c = Ok (status, c') ->
  written (conn c) `prefix_of` written (conn c')
  /\ open c' = open c /\ session c' = session c /\ start c' = start c
  /\ buf (send c') `suffix_of` buf (send c)
  /\ buf (sendToken c') `suffix_of` buf (sendToken c)
  /\ closed (send c') = closed (send c)
  /\ closed (sendToken c') = closed (sendToken c)
  /\ (status = Returned -> connClosed (conn c') = true)
  /\ (status = Running -> connClosed (conn c') = connClosed (conn c)).
Proof.
  destruct c as [se st op [w cl] [sb sc scl] [tb tc tcl]].
  destruct ev as [nw ce | nw ce | we]; simpl.
  - unfold chan_recv; simpl. destruct sb as [|m q]; simpl.
    + destruct scl; simpl; [|discriminate]. intros [= <- <-]. simpl.
      repeat split; try done.
    + destruct nw; simpl.
      * intros [= <- <-]. simpl. repeat split; try done.
        by apply suffix_cons_r.
      * unfold len; simpl. rewrite (drain_all [] id q). simpl.
        destruct ce; intros [= <- <-]; simpl; repeat split; try done;
          try apply suffix_nil; by apply prefix_app_r.
  - unfold chan_recv; simpl. destruct tb as [|t q]; simpl.
    + destruct tcl; simpl; [|discriminate]. intros [= <- <-]. simpl.
      repeat split; try done. by apply prefix_app_r.
    + destruct nw; simpl.
      * intros [= <- <-]. simpl. repeat split; try done.
        by apply suffix_cons_r.
      * unfold len; simpl.
        rewrite (drain_all EmptyString String.list_byte_of_string q). simpl.
        destruct ce; intros [= <- <-]; simpl; repeat split; try done;
          try apply suffix_nil; by apply prefix_app_r.
  - destruct we; intros [= <- <-]; simpl; repeat split; try done.
    by apply prefix_app_r.
Qed.

End PumpInvariants.

(** X16: however long the write pump runs, it only adds frames at the end
    of the wire and only takes values off the front of its two queues; it
    never closes a queue and never writes the [open] flag, the session or
    the start signal of the connection; and when it has returned, the
    transport is closed. *)
Theorem writePump_appends_only (evs : list PumpEvent) (c c' : Client)
    (status : PumpStatus) :
  writePump evs c = Ok (status, c') ->
  written (conn c) `prefix_of` written (conn c')
  /\ open c' = open c /\ session c' = session c /\ start c' = start c
  /\ buf (send c') `suffix_of` buf (send c)
  /\ buf (sendToken c') `suffix_of` buf (sendToken c)
  /\ closed (send c') = closed (send c)
  /\ closed (sendToken c') = closed (sendToken c)
  /\ (status = Returned -> connClosed (conn c') = true).
Proof.
  revert c. induction evs as [|ev rest IH]; intros c; simpl.
  - intros [= <- <-]. repeat split; try done.
  - destruct (writePump_iter ev c) as [[s1 c1]| |] eqn:Hiter; simpl; try discriminate.
    destruct (writePump_iter_appends _ _ _ _ Hiter)
      as (Hw & Ho & Hs & Hst & Hq & Ht & Hcq & Hct & Hret & _).
    destruct s1.
    + intros Hrest.
      destruct (IH c1 Hrest) as (Hw' & Ho' & Hs' & Hst' & Hq' & Ht' & Hcq' & Hct' & Hret').
      repeat split; try congruence; try assumption.
      * by etrans.
      * by etrans.
      * by etrans.
    + intros [= <- <-]. repeat split; try assumption; by apply Hret.
Qed.

Lemma writePump_appends_only_witness :
  exists c',
    writePump [OnTick false; OnSend false false; OnTick true; OnSend false false]
      burstClient = Ok (Returned, c')
    /\ open c' = open burstClient
    /\ connClosed (conn c') = true
    /\ buf (send c') = [].
Proof.
  destruct (writePump [OnTick false; OnSend false false; OnTick true; OnSend false false]
              burstClient) as [[[|] c']| |] eqn:Hrun;
    try (vm_compute in Hrun; discriminate).
  destruct (writePump_appends_only _ _ _ _ Hrun) as (_ & Ho & _ & _ & _ & _ & _ & _ & Hret).
  exists c'. split; [reflexivity|]. split; [exact Ho|]. split; [by apply Hret|].
  vm_compute in Hrun. injection Hrun as <-. reflexivity.
Defined.

(** X17: unregistration loses no queued message: the queues it closes
    keep what they hold, so the next turn of the write pump on the message
    queue still writes the whole batch in one frame, and only the turn
    after that finds the queue closed and returns. *)
Theorem unregister_then_pump_flushes (p : ClientPtr) (st st' : State)
    (c : Client) (message : list byte) (queued : list (list byte)) :
  clients st !! p = Some c -> open c = true ->
  buf (send c) = message :: queued ->
  unregister p st = Ok st' ->
  exists c' c'',
    clients st' !! p = Some c'
    /\ closed (send c') = true
    /\ writePump [OnSend false false; OnSend false false] c' = Ok (Returned, c'')
    /\ written (conn c'')
       = written (conn c) ++ [TextMessage (frame_of message queued)]
    /\ connClosed (conn c'') = true.
Proof.
  intros Hc Hopen Hbuf Hun. unfold unregister, deref in Hun.
  rewrite Hc in Hun. simpl in Hun. rewrite Hopen in Hun. unfold chan_close in Hun.
  destruct (closed (send c)) eqn:Hcl; simpl in Hun; [discriminate|].
  destruct (closed (sendToken c)) eqn:Hclt; simpl in Hun; [discriminate|].
  injection Hun as <-.
  eexists _, _. split; [apply lookup_insert_eq|]. split; [reflexivity|].
  rewrite writePump_cons.
  erewrite OnSend_frame by (simpl; exact Hbuf).
  simpl. split; [reflexivity|]. split; reflexivity.
Qed.

Lemma unregister_then_pump_flushes_witness :
  exists st' c' c'',
    unregister 0%nat (state_of (play sampleTTL threeClients emptyState)) = Ok st'
    /\ clients st' !! 0%nat = Some c'
    /\ writePump [OnSend false false; OnSend false false] c' = Ok (Returned, c'')
    /\ written (conn c'') = [TextMessage hello].
Proof.
  assert (exists c,
            clients (state_of (play sampleTTL threeClients emptyState)) !! 0%nat = Some c
            /\ open c = true /\ buf (send c) = [hello] /\ written (conn c) = [])
    as (c & Hc & Hopen & Hbuf & Hw)
    by (eexists; repeat split; vm_compute; reflexivity).
  destruct (unregister 0%nat (state_of (play sampleTTL threeClients emptyState)))
    as [st'| |] eqn:Hun; try (vm_compute in Hun; discriminate).
  destruct (unregister_then_pump_flushes 0%nat _ st' c hello [] Hc Hopen Hbuf Hun)
    as (c' & c'' & Hc' & _ & Hrun & Hwire & _).
  exists st', c', c''. repeat split; try assumption.
  rewrite Hwire, Hw. reflexivity.
Defined.

(** ** The read pump *)

Section ReadPumpFacts.

Lemma replace_newlines_free (message : list byte) :
  newline_free (replace_newlines message).
Proof.
  unfold newline_free, replace_newlines. intros Hin.
  apply list_elem_of_fmap in Hin as (b & Hb & _).
  destruct (Byte.eqb b x0a) eqn:E; [discriminate|].
  subst b. by apply Byte.eqb_false in E.
Qed.

Lemma trim_left_suffix (message : list byte) :
  exists l, message = l ++ trim_left message.
Proof.
  induction message as [|b rest [l IH]]; [by exists []|]. simpl.
  destruct (ascii_space b).
  - exists (b :: l). simpl. by rewrite <- IH.
  - by exists [].
Qed.

Lemma trim_ascii_segment (message : list byte) :
  exists l r, message = l ++ trim_ascii message ++ r.
Proof.
  unfold trim_ascii.
  destruct (trim_left_suffix message) as [l Hl].
  destruct (trim_left_suffix (rev (trim_left message))) as [l2 Hl2].
  exists l, (rev l2). rewrite Hl at 1. f_equal.
  rewrite <- rev_app_distr, <- Hl2. by rewrite rev_involutive.
Qed.

End ReadPumpFacts.

(** X18: whatever white space the trimming slices off the two ends, the
    payload that the read pump makes of a frame holds no newline byte and
    is no longer than the frame. *)
Theorem normalize_newline_free (TrimSpace : list byte -> list byte)
    (message : list byte) :
  (forall s, exists l r, s = l ++ TrimSpace s ++ r) ->
  newline_free (normalize TrimSpace message)
  /\ (List.length (normalize TrimSpace message) <= List.length message)%nat.
Proof.
  intros Hseg. unfold normalize.
  destruct (Hseg (replace_newlines message)) as (l & r & Heq).
  pose proof (replace_newlines_free message) as Hfree.
  split.
  - unfold newline_free in *. intros Hin. apply Hfree. rewrite Heq.
    apply elem_of_app. right. apply elem_of_app. by left.
  - assert (List.length (replace_newlines message) = List.length message) as <-
      by apply length_map.
    rewrite Heq at 2. rewrite !length_app. lia.
Qed.

Lemma normalize_newline_free_witness :
  normalize trim_ascii [x20; x09; x61; x0a; x62; x0d; x0a]
  = String.list_byte_of_string "a b"
  /\ newline_free (normalize trim_ascii [x20; x09; x61; x0a; x62; x0d; x0a]).
Proof.
  split; [vm_compute; reflexivity|].
  apply (normalize_newline_free trim_ascii). apply trim_ascii_segment.
Defined.

(** X19: the read pump makes one request of every frame it reads, in the
    order of arrival, each with the session of the connection and the
    normalized payload, and puts it on the ingress queue; at the first
    frame that cannot be read (a read error, or a frame above the read
    limit) it returns, having asked the hub once to unregister the
    connection and closed the transport; what arrives after that frame is
    not read. *)
Theorem readPump_until_error (TrimSpace : list byte -> list byte)
    (p : ClientPtr) (c : Client) (token : SessionToken)
    (good : list (list byte)) (bad : Incoming) (rest : list Incoming)
    (ingress : chan Request) :
  session c = Some token ->
  Forall (fun m => (N.of_nat (List.length m) <= maxMessageSize)%N) good ->
  ReadMessage bad = None ->
  closed ingress = false ->
  (len ingress + List.length good <= cap ingress)%nat ->
  readPump TrimSpace p (map InMessage good ++ bad :: rest) c ingress
  = Ok (Returned,
        set_conn (mkConn (written (conn c)) true) c,
        Chan (buf ingress
              ++ map (fun m => mkRequest token (normalize TrimSpace m)) good)
          (cap ingress) false,
        [EvUnregister p]).
Proof.
  intros Hs Hgood Hbad. revert ingress.
  induction good as [|m good IH]; intros ingress Hcl Hroom; simpl.
  - rewrite Hbad. simpl. rewrite app_nil_r. destruct ingress; simpl in *.
    by subst.
  - apply Forall_cons in Hgood as [Hm Hgood].
    assert ((maxMessageSize <? N.of_nat (List.length m))%N = false) as ->
      by (apply N.ltb_ge; exact Hm).
    rewrite Hs. simpl. unfold chan_send. rewrite Hcl.
    assert ((len ingress <? cap ingress)%nat = true) as ->
      by (apply Nat.ltb_lt; simpl in Hroom; lia).
    simpl. rewrite (IH Hgood); simpl.
    + by rewrite <- app_assoc.
    + reflexivity.
    + unfold len in *. simpl in *. rewrite length_app. simpl. lia.
Qed.

Lemma readPump_until_error_witness :
  exists c',
    readPump trim_ascii 4%nat
      [InMessage (String.list_byte_of_string " hi "); InMessage hello;
       InMessage oversized; InMessage ping]
      (set_session (Some "t1") newClient) (make 8)
    = Ok (Returned, c',
          Chan [mkRequest "t1" (String.list_byte_of_string "hi");
                mkRequest "t1" hello] 8 false,
          [EvUnregister 4%nat])
    /\ connClosed (conn c') = true.
Proof.
  eexists. split.
  - apply (readPump_until_error trim_ascii 4%nat (set_session (Some "t1") newClient)
             "t1" [String.list_byte_of_string " hi "; hello]
             (InMessage oversized) [InMessage ping] (make 8)).
    + reflexivity.
    + repeat constructor; vm_compute; discriminate.
    + vm_compute. reflexivity.
    + reflexivity.
    + vm_compute. lia.
  - reflexivity.
Defined.

(** ** Accepting a connection *)

(** X20: the secret of the request does not decide anything, the gate
    being switched off: an upgrade that fails leaves the hub's world as it
    is, and one that succeeds adds one connection at a pointer that was
    free, not yet marked open, with empty message queue and the token of
    the request on its token queue, and leaves every session and every
    other connection as it is. *)
Theorem serveWs_request_admits (sessionToken clientSecret : string)
    (upgradeErr : bool) (st : State) :
  serveWs_request sessionToken clientSecret upgradeErr st
    = serveWs_request sessionToken serverSecret upgradeErr st
  /\ (upgradeErr = true ->
      serveWs_request sessionToken clientSecret upgradeErr st
        = Ok (UpgradeFailed, st))
  /\ (upgradeErr = false ->
      exists p st' c,
        serveWs_request sessionToken clientSecret upgradeErr st
          = Ok (Upgraded p, st')
        /\ clients st !! p = None
        /\ clients st' !! p = Some c
        /\ open c = false
        /\ send c = make sendMsgBufferSize
        /\ sendToken c = Chan [sessionToken] sendTokenBufferSize false
        /\ sessions st' = sessions st
        /\ forall q, q <> p -> clients st' !! q = clients st !! q).
Proof.
  unfold serveWs_request. simpl. split; [reflexivity|]. split.
  - by intros ->.
  - intros ->. simpl. eexists _, _, _. split; [reflexivity|]. simpl.
    split; [apply not_elem_of_dom, is_fresh|].
    split; [apply lookup_insert_eq|]. do 4 (split; [reflexivity|]).
    intros q Hne. by rewrite lookup_insert_ne.
Qed.

Lemma serveWs_request_admits_witness :
  exists st',
    serveWs_request "t1" "not the secret" false registeredOne
      = Ok (Upgraded 1%nat, st')
    /\ validClientSecret "not the secret" = false
    /\ clients st' !! 0%nat = clients registeredOne !! 0%nat.
Proof.
  destruct (serveWs_request_admits "t1" "not the secret" false registeredOne)
    as (_ & _ & Hok).
  destruct (Hok eq_refl) as (p & st' & c & Hreq & Hfree & Hc & _ & _ & _ & _ & Hothers).
  assert (p = 1%nat) as ->.
  { vm_compute in Hreq. by injection Hreq as <- _. }
  exists st'. split; [exact Hreq|]. split; [reflexivity|].
  by apply Hothers.
Defined.
